(** * netplan apply: restart decisions, match tables and the rename planner

    A shallow embedding of [netplan/cli/commands/apply.py]
    ([NetplanApply.command_apply], [NetplanApply.is_composite_member] and
    [NetplanApply.process_link_changes]) and the properties of it that the
    design document states.

    Python values are embedded as a small tree type, Python dictionaries
    that the code iterates over as insertion-ordered association lists, the
    two match tables (only ever read by key) as [gmap]s, exceptions as an
    error monad and the calls to the host (systemctl, nmcli, udevadm, ip)
    as a trace of actions whose outcomes are given by a host record. *)

From Stdlib Require Import ZArith.
From Stdlib Require String Ascii.
From stdpp Require Import base option list sorting gmap strings.

Set Warnings "-register-all".

(** * The program *)

(** ** Python values and exceptions *)

(** What [yaml.safe_load] hands to the code, as far as this module reads
    it: null, strings, sequences and mappings with string keys. *)
Inductive value : Type :=
| VNone
| VStr (s : string)
| VList (l : list value)
| VDict (d : list (string * value)).

Inductive exn : Type :=
| AttributeError
| TypeError
| KeyError
| ValueError
| CalledProcessError
| ConfigurationError (msg : string)
| SystemExit (code : Z).

Inductive result (A : Type) : Type :=
| Ok (a : A)
| Raise (e : exn).
Arguments Ok {A} a.
Arguments Raise {A} e.

(** Sequencing for code that may raise, shared by the pure planner
    ([result]) and the orchestrator ([prog], below). *)
Class Monad (M : Type → Type) : Type := {
  ret : ∀ {A : Type}, A → M A;
  bind : ∀ {A B : Type}, M A → (A → M B) → M B
}.

Notation "x <- m ;; k" := (bind m (λ x, k))
  (at level 100, m at next level, right associativity,
   format "x  <-  m  ;;  '/' k").
Notation "m ;;; k" := (bind m (λ _, k))
  (at level 100, right associativity, format "m  ;;;  '/' k").

#[global] Instance result_monad : Monad result := {
  ret := λ A a, Ok a;
  bind := λ A B m f,
    match m with
    | Ok a => f a
    | Raise e => Raise e
    end
}.

Definition is_ok {A} (r : result A) : bool :=
  match r with Ok _ => true | Raise _ => false end.

(** [bool(v)]. *)
Definition truthy (v : value) : bool :=
  match v with
  | VNone => false
  | VStr s => negb (String.eqb s "")
  | VList l => negb (Nat.eqb (length l) 0)
  | VDict d => negb (Nat.eqb (length d) 0)
  end.

(** [v == s] and [v != s] for a [str] [s]. *)
Definition value_eq_str (v : value) (s : string) : bool :=
  match v with
  | VStr t => String.eqb t s
  | _ => false
  end.

(** ** Dictionaries in insertion order *)

Module Dict.
Section dict.
Context {V : Type}.

Fixpoint get (d : list (string * V)) (k : string) : option V :=
  match d with
  | [] => None
  | (k', v) :: rest => if String.eqb k' k then Some v else get rest k
  end.

(** [k in d]. *)
Definition contains (d : list (string * V)) (k : string) : bool :=
  match get d k with Some _ => true | None => false end.

(** [d[k] = v]: an existing key keeps its place, a new one goes last. *)
Fixpoint set (d : list (string * V)) (k : string) (v : V) : list (string * V) :=
  match d with
  | [] => [(k, v)]
  | (k', v') :: rest =>
      if String.eqb k' k then (k, v) :: rest else (k', v') :: set rest k v
  end.

Definition keys (d : list (string * V)) : list string := map fst d.
End dict.
End Dict.

(** [v.get(k, default)]: only a [dict] has the method. *)
Definition py_get (v : value) (k : string) (default : value) : result value :=
  match v with
  | VDict d => Ok (from_option id default (Dict.get d k))
  | _ => Raise AttributeError
  end.

(** The elements a [for x in v] loop visits. *)
Definition py_iter (v : value) : result (list value) :=
  match v with
  | VNone => Raise TypeError
  | VStr s => Ok (map (λ c, VStr (String c "")) (String.list_ascii_of_string s))
  | VList l => Ok l
  | VDict d => Ok (map VStr (Dict.keys d))
  end.

(** A [for] loop whose body may raise, threading the loop's variables. *)
Fixpoint for_each {A S : Type} (body : S → A → result S) (l : list A) (s : S)
  : result S :=
  match l with
  | [] => Ok s
  | a :: rest => s' <- body s a ;; for_each body rest s'
  end.

(** ** The match tables (lines 163-182) *)

Record matches : Type := Matches {
  by_driver : gmap string value;
  by_mac : gmap string value
}.

Definition no_matches : matches := Matches ∅ ∅.

(** [if key: table[key] = newname]; a list or a dict cannot be a key. *)
Definition set_if_truthy (table : gmap string value) (key newname : value)
  : result (gmap string value) :=
  if truthy key then
    match key with
    | VStr s => Ok (<[s := newname]> table)
    | _ => Raise TypeError
    end
  else Ok table.

(** The body of [for phy, settings in phys.items()]. *)
Definition match_rule (m : matches) (item : string * value) : result matches :=
  let '(phy, settings) := item in
  if negb (truthy settings) then Ok m else
  if String.eqb phy "renderer" then Ok m else
  newname <- py_get settings "set-name" VNone ;;
  if negb (truthy newname) then Ok m else
  match_ <- py_get settings "match" VNone ;;
  if negb (truthy match_) then Ok m else
  driver <- py_get match_ "driver" VNone ;;
  mac <- py_get match_ "macaddress" VNone ;;
  bd <- set_if_truthy (by_driver m) driver newname ;;
  bm <- set_if_truthy (by_mac m) mac newname ;;
  Ok (Matches bd bm).

Definition match_tables (phys : list (string * value)) : result matches :=
  for_each match_rule phys no_matches.

(** ** [is_composite_member] (lines 134-147) *)

(** [for iface in members: if iface == phy: return True]. *)
Definition has_member (members : list value) (phy : string) : bool :=
  existsb (λ iface, value_eq_str iface phy) members.

(** [for id, settings in composite.items()], leaving at the first hit. *)
Fixpoint composite_has_member (items : list (string * value)) (phy : string)
  : result bool :=
  match items with
  | [] => Ok false
  | (_, settings) :: rest =>
      members <- py_get settings "interfaces" (VList []) ;;
      ifaces <- py_iter members ;;
      if has_member ifaces phy then Ok true else composite_has_member rest phy
  end.

Fixpoint is_composite_member (composites : list (list (string * value)))
  (phy : string) : result bool :=
  match composites with
  | [] => Ok false
  | composite :: rest =>
      found <- composite_has_member composite phy ;;
      if found : bool then Ok true else is_composite_member rest phy
  end.

(** ** What the planner reads from the host *)

(** [str.isspace] on the ASCII range, the characters [str.strip()] removes
    from the text of an [operstate] file. *)
Definition py_isspace (c : Ascii.ascii) : bool :=
  let n := Ascii.nat_of_ascii c in
  (Nat.leb 9 n && Nat.leb n 13) || (Nat.leb 28 n && Nat.leb n 32).

Fixpoint lstrip (s : string) : string :=
  match s with
  | String c rest => if py_isspace c then lstrip rest else s
  | EmptyString => EmptyString
  end.

Fixpoint rstrip (s : string) : string :=
  match s with
  | String c rest =>
      let rest' := rstrip rest in
      if py_isspace c && String.eqb rest' "" then "" else String c rest'
  | EmptyString => EmptyString
  end.

Definition strip (s : string) : string := rstrip (lstrip s).

(** The three reads of [process_link_changes], by interface name:
    - [operstate]: the text of [/sys/class/net/<name>/operstate], [None]
      when opening or reading it raises [IOError];
    - [driver_name]: [basename(realpath(/sys/class/net/<name>/device/driver))],
      [None] in the [except IOError] branch;
    - [link_addr]: [netifaces.ifaddresses(name)[AF_LINK][0].get('addr')],
      which raises when the host has no such entry. *)
Record links : Type := Links {
  operstate : string → option string;
  driver_name : string → option string;
  link_addr : string → result (option string)
}.

(** What the code uses of a [ConfigManager] after [parse()]. *)
Record config_manager : Type := ConfigManager {
  physical_interfaces : list (string * value);
  bridges : list (string * value);
  bonds : list (string * value)
}.

(** ** [process_link_changes] (lines 150-230) *)

(** [if new_name != interface: changes.update({interface: {'name': new_name}})]. *)
Definition record_change (changes : list (string * value)) (interface : string)
  (new_name : value) : list (string * value) :=
  if negb (value_eq_str new_name interface)
  then Dict.set changes interface (VDict [("name", new_name)])
  else changes.

(** [if key in table: new_name = table[key]; ...]; [None] is in no table. *)
Definition match_link (table : gmap string value) (key : option string)
  (changes : list (string * value)) (interface : string)
  : list (string * value) :=
  match key with
  | Some k =>
      match table !! k with
      | Some new_name => record_change changes interface new_name
      | None => changes
      end
  | None => changes
  end.

(** The body of [for interface in interfaces]. *)
Definition link_change (phys : list (string * value))
  (composite_interfaces : list (list (string * value))) (m : matches)
  (sys : links) (changes : list (string * value)) (interface : string)
  : result (list (string * value)) :=
  if negb (Dict.contains phys interface) then Ok changes else
  member <- is_composite_member composite_interfaces interface ;;
  if member : bool then Ok changes else
  match operstate sys interface with
  | None => Ok changes
  | Some text =>
      if negb (String.eqb (strip text) "down") then Ok changes else
      let driver := driver_name sys interface in
      macaddress <- link_addr sys interface ;;
      let changes := match_link (by_driver m) driver changes interface in
      let changes := match_link (by_mac m) macaddress changes interface in
      Ok changes
  end.

Definition process_link_changes (interfaces : list string)
  (cfg : config_manager) (sys : links) : result (list (string * value)) :=
  let phys := physical_interfaces cfg in
  let composite_interfaces := [bridges cfg; bonds cfg] in
  m <- match_tables phys ;;
  for_each (link_change phys composite_interfaces m sys) interfaces [].

(** ** The host and the orchestrator's effects *)

(** The commands [command_apply] runs, with the arguments it passes. *)
Inductive action : Type :=
| RunGenerator
| SystemctlNetworkd (verb : string) (sync : bool) (extra_services : list string)
| SystemctlNetworkManager (verb : string) (sync : bool)
| Nmcli (args : list string)
| CheckCall (argv : list string).

(** What one pass observes of the host:
    - [old_files_*]: [bool(glob.glob(...))] on entry (lines 49-50);
    - [generator_status]: the exit status of the generator;
    - [new_files_*]: [bool(glob.glob(...))] after generation (lines 67, 70);
    - [devices]: [netifaces.interfaces()];
    - [parse]: the configuration [config_manager.parse()] leaves, or what it
      raises;
    - [nm_running]: [utils.nm_running()];
    - [netplan_wpa]: the basenames of the [netplan-wpa@*.service] wants;
    - [raises]: the exception a [systemctl], [nmcli] or [check_call]
      command ends with, [None] when it returns (for [subprocess.check_call]
      a non-zero exit is [CalledProcessError]). *)
Record host : Type := Host {
  old_files_networkd : bool;
  old_files_nm : bool;
  generator_status : Z;
  new_files_networkd : bool;
  new_files_nm : bool;
  devices : list string;
  parse : result config_manager;
  sysfs : links;
  nm_running : bool;
  netplan_wpa : list string;
  raises : action → option exn
}.

(** A computation over the commands run so far: it ends with a value or an
    exception, and in both cases with the commands that were run. *)
Definition prog (A : Type) : Type := list action → result A * list action.

#[global] Instance prog_monad : Monad prog := {
  ret := λ A a t, (Ok a, t);
  bind := λ A B m f t,
    match m t with
    | (Ok a, t') => f a t'
    | (Raise e, t') => (Raise e, t')
    end
}.

Definition raise {A : Type} (e : exn) : prog A := λ t, (Raise e, t).

Definition lift {A : Type} (r : result A) : prog A := λ t, (r, t).

(** Run a command: it joins the trace, then returns or raises. *)
Definition invoke (h : host) (a : action) : prog unit := λ t,
  (match raises h a with None => Ok tt | Some e => Raise e end, t ++ [a]).

(** [try: m  except subprocess.CalledProcessError: pass]. *)
Definition ignore_called_process_error (m : prog unit) : prog unit := λ t,
  match m t with
  | (Raise CalledProcessError, t') => (Ok tt, t')
  | other => other
  end.

Fixpoint for_ {A : Type} (l : list A) (body : A → prog unit) : prog unit :=
  match l with
  | [] => ret tt
  | a :: rest => body a ;;; for_ rest body
  end.

Definition when (b : bool) (m : prog unit) : prog unit :=
  if b then m else ret tt.

(** ** [command_apply] (lines 48-131) *)

(** [os.EX_CONFIG]. *)
Definition EX_CONFIG : Z := 78.

(** Lines 67-69 and 70-72: [restart = bool(glob(...))], then
    [if not restart and old_files: restart = True]. *)
Definition restart_decision (old_files new_files : bool) : bool :=
  let restart := new_files in
  if negb restart && old_files then true else restart.

(** [subprocess.call([utils.get_generator_path()])]: the generator runs and
    its exit status comes back. *)
Definition call_generator (h : host) : prog Z := λ t,
  (Ok (generator_status h), t ++ [RunGenerator]).

(** Lines 52-56. *)
Definition generate (h : host) (run_generate exit_on_error : bool) : prog unit :=
  failed <- (if run_generate
             then status <- call_generator h ;; ret (negb (Z.eqb status 0))
             else ret false) ;;
  if failed : bool then
    if exit_on_error then raise (SystemExit EX_CONFIG)
    else raise (ConfigurationError "the configuration could not be generated")
  else ret tt.

(** Lines 81-94. *)
Definition stop_network_manager (h : host) (sync restart_nm : bool) : prog unit :=
  when restart_nm
    (when (nm_running h)
       (for_ (devices h) (λ device,
          ignore_called_process_error
            (invoke h (Nmcli ["device"; "disconnect"; device]))) ;;;
        invoke h (SystemctlNetworkManager "stop" sync))).

(** Lines 111-119, one entry of [changes.items()]. *)
Definition apply_rename (h : host) (change : string * value) : prog unit :=
  let '(iface, settings) := change in
  name <- lift (py_get settings "name" VNone) ;;
  if truthy name then
    match name with
    | VStr new_name =>
        invoke h (CheckCall ["ip"; "link"; "set"; "dev"; iface; "name"; new_name])
    | _ => raise TypeError
    end
  else ret tt.

(** Lines 58-131, what follows the generator. *)
Definition reconcile (h : host) (sync : bool) : prog unit :=
  let restart_networkd :=
    restart_decision (old_files_networkd h) (new_files_networkd h) in
  let restart_nm := restart_decision (old_files_nm h) (new_files_nm h) in
  when restart_networkd
    (invoke h (SystemctlNetworkd "stop" sync ["netplan-wpa@*.service"])) ;;;
  stop_network_manager h sync restart_nm ;;;
  config <- lift (parse h) ;;
  changes <- lift (process_link_changes (devices h) config (sysfs h)) ;;
  for_ (devices h) (λ device,
    invoke h (CheckCall ["udevadm"; "test-builtin"; "net_setup_link";
                         "/sys/class/net/" +:+ device])) ;;;
  for_ changes (apply_rename h) ;;;
  invoke h (CheckCall ["udevadm"; "settle"]) ;;;
  when restart_networkd
    (invoke h (SystemctlNetworkd "start" sync (netplan_wpa h))) ;;;
  when restart_nm (invoke h (SystemctlNetworkManager "start" sync)).

Definition command_apply (h : host) (run_generate sync exit_on_error : bool)
  : prog unit :=
  generate h run_generate exit_on_error ;;;
  reconcile h sync.

(** * Notions the properties are stated with *)

(** ** The planner, one interface at a time *)

(** The entry [changes.update] stores for a new name. *)
Definition entry (new_name : value) : value := VDict [("name", new_name)].

(** The name one table asks for, when it differs from the current one. *)
Definition hit (table : gmap string value) (key : option string)
  (interface : string) : option value :=
  match key with
  | Some k =>
      match table !! k with
      | Some new_name =>
          if value_eq_str new_name interface then None else Some new_name
      | None => None
      end
  | None => None
  end.

(** The by-mac table is read last, so its name is the one that stays. *)
Definition target (m : matches) (driver macaddress : option string)
  (interface : string) : option value :=
  match hit (by_mac m) macaddress interface with
  | Some new_name => Some new_name
  | None => hit (by_driver m) driver interface
  end.

(** What one iteration of the loop decides for its interface. *)
Definition planned (phys : list (string * value))
  (composite_interfaces : list (list (string * value))) (m : matches)
  (sys : links) (interface : string) : result (option value) :=
  if negb (Dict.contains phys interface) then Ok None else
  member <- is_composite_member composite_interfaces interface ;;
  if member : bool then Ok None else
  match operstate sys interface with
  | None => Ok None
  | Some text =>
      if negb (String.eqb (strip text) "down") then Ok None else
      macaddress <- link_addr sys interface ;;
      Ok (target m (driver_name sys interface) macaddress interface)
  end.

Definition write (changes : list (string * value)) (interface : string)
  (p : option value) : list (string * value) :=
  match p with
  | Some new_name => Dict.set changes interface (entry new_name)
  | None => changes
  end.

(** ** Composite membership *)

(** The name is listed under [interfaces] in some bridge or bond. *)
Definition declared_member (composites : list (list (string * value)))
  (phy : string) : Prop :=
  ∃ composite id settings members,
    composite ∈ composites ∧ (id, VDict settings) ∈ composite
    ∧ Dict.get settings "interfaces" = Some (VList members)
    ∧ VStr phy ∈ members.

(** Every composite is a mapping, and its [interfaces], when it has the
    key, a sequence. *)
Definition well_formed_settings (settings : value) : bool :=
  match settings with
  | VDict d =>
      match Dict.get d "interfaces" with
      | None | Some (VList _) => true
      | Some _ => false
      end
  | _ => false
  end.

Definition well_formed_composite (composite : list (string * value)) : bool :=
  forallb (λ item, well_formed_settings item.2) composite.

(** ** The match-table builder *)

(** A rule the builder does not skip: a mapping under a key other than
    [renderer], with a [set-name] and a non-empty [match] mapping. *)
Definition active_rule (item : string * value) (newname : value)
  (match_ : list (string * value)) : Prop :=
  ∃ settings,
    item.2 = VDict settings ∧ item.1 ≠ "renderer"
    ∧ Dict.get settings "set-name" = Some newname ∧ truthy newname = true
    ∧ Dict.get settings "match" = Some (VDict match_) ∧ match_ ≠ [].

(** The rule asks for [newname] on the [field] ([driver] or [macaddress])
    value [key]. *)
Definition declares (field : string) (item : string * value) (key : string)
  (newname : value) : Prop :=
  ∃ match_,
    active_rule item newname match_
    ∧ Dict.get match_ field = Some (VStr key) ∧ key ≠ "".

(** The entry is processed without an exception when it is the only one. *)
Definition rule_ok (item : string * value) : bool :=
  is_ok (match_rule no_matches item).

Definition lacks (settings : value) (k : string) : bool :=
  match settings with
  | VDict d => negb (truthy (from_option id VNone (Dict.get d k)))
  | _ => false
  end.

(** The sentinel key, an empty settings block, no target name, no match
    block. *)
Definition inert (item : string * value) : bool :=
  String.eqb item.1 "renderer" || negb (truthy item.2)
  || lacks item.2 "set-name" || lacks item.2 "match".

(** The table of [field], to state both halves of the builder at once. *)
Definition table (field : string) (m : matches) : gmap string value :=
  if String.eqb field "driver" then by_driver m else by_mac m.

Definition match_field (field : string) : Prop :=
  field = "driver" ∨ field = "macaddress".

(** ** The orchestrator: which commands run, in which order *)

(** The phase of the pass a command belongs to: generate (0), stop (1),
    link rules (2), renames (3), settle (4), start (5). *)
Definition phase (a : action) : nat :=
  match a with
  | RunGenerator => 0
  | SystemctlNetworkd verb _ _ | SystemctlNetworkManager verb _ =>
      if String.eqb verb "stop" then 1 else 5
  | Nmcli _ => 1
  | CheckCall argv =>
      match argv with
      | cmd :: args =>
          if String.eqb cmd "ip" then 3
          else match args with
               | [arg] => if String.eqb arg "settle" then 4 else 2
               | _ => 2
               end
      | [] => 2
      end
  end.

(** The commands of the stop phase that concern NetworkManager. *)
Definition nm_stop_action (a : action) : bool :=
  match a with
  | Nmcli _ => true
  | SystemctlNetworkManager verb _ => String.eqb verb "stop"
  | _ => false
  end.

(** A command whose exception leaves [command_apply]: every exception but
    the [CalledProcessError] of an [nmcli] call, which line 89 handles. *)
Definition fatal (h : host) (a : action) : bool :=
  match a, raises h a with
  | RunGenerator, _ => false
  | _, None => false
  | Nmcli _, Some CalledProcessError => false
  | _, Some _ => true
  end.

Definition restart_nm (h : host) : bool :=
  restart_decision (old_files_nm h) (new_files_nm h).

(** NetworkManager is only disconnected and stopped when its restart
    decision is true and it is running. *)
Definition permitted (h : host) (a : action) : Prop :=
  nm_stop_action a = true → restart_nm h = true ∧ nm_running h = true.

(** How an outcome relates to the commands that were added to the trace:
    a pass that returns ran no fatal command; one that raises either ran
    none, or ran exactly one, last, and raises its exception. *)
Definition outcome_ok {A : Type} (h : host) (r : result A)
  (added : list action) : Prop :=
  match r with
  | Ok _ => Forall (λ a, fatal h a = false) added
  | Raise e =>
      Forall (λ a, fatal h a = false) added
      ∨ ∃ before a,
          added = before ++ [a] ∧ Forall (λ a, fatal h a = false) before
          ∧ fatal h a = true ∧ raises h a = Some e
  end.

(** A program that only adds permitted commands of phases [lo..hi], in
    phase order, and stops at the first fatal one. *)
Definition orderly {A : Type} (h : host) (lo hi : nat) (m : prog A) : Prop :=
  ∀ t, ∃ r added,
    m t = (r, t ++ added)
    ∧ Forall (λ a, lo ≤ phase a ≤ hi ∧ permitted h a) added
    ∧ StronglySorted (λ a b, phase a ≤ phase b) added
    ∧ outcome_ok h r added.

Definition ip_link_set_name (iface new_name : string) : action :=
  CheckCall ["ip"; "link"; "set"; "dev"; iface; "name"; new_name].

Definition udevadm_settle : action := CheckCall ["udevadm"; "settle"].

(** ** Running the planner again after its renames *)

(** A live interface: its name and what the three reads return for it. *)
Record device : Type := Device {
  dev_name : string;
  dev_operstate : option string;
  dev_driver : option string;
  dev_addr : result (option string)
}.

Definition names (devs : list device) : list string := map dev_name devs.

Definition find_device (devs : list device) (name : string) : option device :=
  find (λ d, String.eqb (dev_name d) name) devs.

(** The reads of the planner on a host with these interfaces; a name that
    no interface carries has no [operstate] file and no addresses. *)
Definition links_of (devs : list device) : links := {|
  operstate := λ name,
    match find_device devs name with
    | Some d => dev_operstate d
    | None => None
    end;
  driver_name := λ name,
    match find_device devs name with
    | Some d => dev_driver d
    | None => None
    end;
  link_addr := λ name,
    match find_device devs name with
    | Some d => dev_addr d
    | None => Raise ValueError
    end
|}.

Fixpoint distinct (l : list string) : bool :=
  match l with
  | [] => true
  | x :: rest => negb (existsb (String.eqb x) rest) && distinct rest
  end.

(** The interface after lines 111-119 have run for it: renamed when the
    changeset has an entry for its name, [None] when that entry cannot be
    applied. *)
Definition renamed (changes : list (string * value)) (d : device)
  : option device :=
  match Dict.get changes (dev_name d) with
  | None => Some d
  | Some settings =>
      match py_get settings "name" VNone with
      | Ok name =>
          if truthy name then
            match name with
            | VStr new_name =>
                Some (Device new_name (dev_operstate d) (dev_driver d)
                        (dev_addr d))
            | _ => None
            end
          else Some d
      | Raise _ => None
      end
  end.

(** The interfaces once every rename of the changeset has succeeded: each
    entry renames the interface it names, and the kernel keeps interface
    names distinct. *)
Definition apply_changes (changes : list (string * value))
  (devs : list device) : option (list device) :=
  match mapM (renamed changes) devs with
  | Some devs' => if distinct (names devs') then Some devs' else None
  | None => None
  end.

(** The two tables do not ask for two different names for the interface. *)
Definition agree (m : matches) (d : device) : bool :=
  match dev_driver d, dev_addr d with
  | Some k, Ok (Some mac) =>
      match by_driver m !! k, by_mac m !! mac with
      | Some A, Some (VStr b) => value_eq_str A b
      | Some _, Some _ => false
      | _, _ => true
      end
  | _, _ => true
  end.

(** ** The commands of a pass *)

Definition restart_networkd (h : host) : bool :=
  restart_decision (old_files_networkd h) (new_files_networkd h).

Definition nmcli_disconnect (device : string) : action :=
  Nmcli ["device"; "disconnect"; device].

Definition net_setup_link (device : string) : action :=
  CheckCall ["udevadm"; "test-builtin"; "net_setup_link";
             "/sys/class/net/" +:+ device].

(** The command lines 111-119 run for one entry of the changeset; an entry
    with a falsy name runs none. *)
Definition rename_command (change : string * value) : list action :=
  match py_get change.2 "name" VNone with
  | Ok (VStr new_name) =>
      if truthy (VStr new_name) then [ip_link_set_name change.1 new_name]
      else []
  | _ => []
  end.

(** The entry can be handed to [ip link set]: its name is falsy (no
    command) or a string. *)
Definition applicable (change : string * value) : bool :=
  match py_get change.2 "name" VNone with
  | Ok name =>
      negb (truthy name) || match name with VStr _ => true | _ => false end
  | Raise _ => false
  end.

(** The commands of a pass in which nothing fails, in the order of lines
    52-131. *)
Definition expected_trace (h : host) (run_generate sync : bool)
  (changes : list (string * value)) : list action :=
  (if run_generate then [RunGenerator] else [])
  ++ (if restart_networkd h
      then [SystemctlNetworkd "stop" sync ["netplan-wpa@*.service"]] else [])
  ++ (if restart_nm h && nm_running h
      then map nmcli_disconnect (devices h)
           ++ [SystemctlNetworkManager "stop" sync]
      else [])
  ++ map net_setup_link (devices h)
  ++ flat_map rename_command changes
  ++ [udevadm_settle]
  ++ (if restart_networkd h
      then [SystemctlNetworkd "start" sync (netplan_wpa h)] else [])
  ++ (if restart_nm h then [SystemctlNetworkManager "start" sync] else []).

(** The commands a pass may run, each with what makes the code run it. *)
Definition pass_command (h : host) (run_generate sync : bool) (a : action)
  : Prop :=
  (a = RunGenerator ∧ run_generate = true)
  ∨ (a = SystemctlNetworkd "stop" sync ["netplan-wpa@*.service"]
     ∧ restart_networkd h = true)
  ∨ (∃ device, a = nmcli_disconnect device ∧ device ∈ devices h
               ∧ restart_nm h = true ∧ nm_running h = true)
  ∨ (a = SystemctlNetworkManager "stop" sync
     ∧ restart_nm h = true ∧ nm_running h = true)
  ∨ (∃ device, a = net_setup_link device ∧ device ∈ devices h)
  ∨ (∃ iface new_name cfg ch,
       a = ip_link_set_name iface new_name ∧ parse h = Ok cfg
       ∧ process_link_changes (devices h) cfg (sysfs h) = Ok ch
       ∧ Dict.get ch iface = Some (VDict [("name", VStr new_name)]))
  ∨ a = udevadm_settle
  ∨ (a = SystemctlNetworkd "start" sync (netplan_wpa h)
     ∧ restart_networkd h = true)
  ∨ (a = SystemctlNetworkManager "start" sync ∧ restart_nm h = true).

(** A program that only adds commands of [P] to the trace. *)
Definition emits {A : Type} (P : action → Prop) (m : prog A) : Prop :=
  ∀ t, ∃ r added, m t = (r, t ++ added) ∧ Forall P added.

(** A program that returns [x] after running the commands [l]. *)
Definition yields {A : Type} (m : prog A) (x : A) (l : list action) : Prop :=
  ∀ t, m t = (Ok x, t ++ l).

(** * Example hosts and configurations *)

Definition newline : string := String (Ascii.ascii_of_nat 10) EmptyString.

(** [<id>: {set-name: <set_name>, match: {<field>: <key>}}]. *)
Definition rule (set_name field key : string) : value :=
  VDict [("set-name", VStr set_name); ("match", VDict [(field, VStr key)])].

(** One down NIC [eth0]: driver [e1000], address [aa:bb:cc:dd:ee:ff]. *)
Definition one_nic (state : string) : links := {|
  operstate := λ _, Some (state +:+ newline);
  driver_name := λ _, Some "e1000";
  link_addr := λ _, Ok (Some "aa:bb:cc:dd:ee:ff")
|}.

Definition both_match : config_manager := {|
  physical_interfaces :=
    [("eth0", rule "ethA" "driver" "e1000");
     ("eth9", rule "ethB" "macaddress" "aa:bb:cc:dd:ee:ff")];
  bridges := [];
  bonds := []
|}.

Definition bridged : config_manager := {|
  physical_interfaces := [("eth0", rule "ethA" "driver" "e1000")];
  bridges := [("br0", VDict [("interfaces", VList [VStr "eth0"])])];
  bonds := []
|}.

(** [eth1: {set-name: lan0, match: {driver: e1000}}] and
    [eth2: {set-name: wan0, match: {macaddress: aa:bb:cc:dd:ee:ff}}]. *)
Definition two_rules : config_manager := {|
  physical_interfaces :=
    [("eth1", rule "lan0" "driver" "e1000");
     ("eth2", rule "wan0" "macaddress" "aa:bb:cc:dd:ee:ff")];
  bridges := [];
  bonds := []
|}.

(** Two down NICs: [eth1] on [e1000], [eth2] on [igb] with the address of
    the second rule. *)
Definition two_nics : links := {|
  operstate := λ _, Some ("down" +:+ newline);
  driver_name := λ name, Some (if String.eqb name "eth1" then "e1000" else "igb");
  link_addr := λ name,
    Ok (Some (if String.eqb name "eth2" then "aa:bb:cc:dd:ee:ff"
              else "00:00:00:00:00:01"))
|}.

(** [ip link set dev <iface> name ...] exits non-zero, all else succeeds. *)
Definition rename_fails (iface : string) (a : action) : option exn :=
  match a with
  | CheckCall (cmd :: _ :: _ :: _ :: dev :: _) =>
      if String.eqb cmd "ip" && String.eqb dev iface
      then Some CalledProcessError else None
  | _ => None
  end.

(** A host with NetworkManager artifacts after generation. *)
Definition lab (status : Z) (running : bool) (fails : action → option exn)
  : host := {|
  old_files_networkd := false;
  old_files_nm := false;
  generator_status := status;
  new_files_networkd := false;
  new_files_nm := true;
  devices := ["eth1"; "eth2"];
  parse := Ok two_rules;
  sysfs := two_nics;
  nm_running := running;
  netplan_wpa := [];
  raises := fails
|}.

(** [eth0] matches the driver rule (to [lan0]) and the address rule (to
    [wan0]), and [wan0] is itself a declared id. *)
Definition two_targets : config_manager := {|
  physical_interfaces :=
    [("eth0", rule "lan0" "driver" "e1000");
     ("wan0", rule "wan0" "macaddress" "aa:bb:cc:dd:ee:ff")];
  bridges := [];
  bonds := []
|}.

Definition nic (name : string) : device := {|
  dev_name := name;
  dev_operstate := Some ("down" +:+ newline);
  dev_driver := Some "e1000";
  dev_addr := Ok (Some "aa:bb:cc:dd:ee:ff")
|}.

Definition one_target : config_manager := {|
  physical_interfaces :=
    [("eth0", rule "lan0" "driver" "e1000"); ("lan0", VDict [])];
  bridges := [];
  bonds := []
|}.

(** Three NICs: [eth0] up and [eth1] down on [e1000], [eth2] down with
    the address [aa:bb:cc:dd:ee:ff]. *)
Definition three_nics : links := {|
  operstate := λ name,
    Some ((if String.eqb name "eth0" then "up" else "down") +:+ newline);
  driver_name := λ name,
    Some (if String.eqb name "eth2" then "igb" else "e1000");
  link_addr := λ name,
    Ok (Some (if String.eqb name "eth2" then "aa:bb:cc:dd:ee:ff"
              else "00:00:00:00:00:01"))
|}.

(** Driver [e1000] to [lan0], address [aa:bb:cc:dd:ee:ff] to [wan0]. *)
Definition three_declared : config_manager := {|
  physical_interfaces :=
    [("eth0", rule "lan0" "driver" "e1000");
     ("eth1", VDict [("dhcp4", VStr "true")]);
     ("eth2", rule "wan0" "macaddress" "aa:bb:cc:dd:ee:ff")];
  bridges := [];
  bonds := []
|}.

(** [udevadm settle] exits non-zero, all else succeeds. *)
Definition settle_fails (a : action) : option exn :=
  match a with
  | CheckCall [cmd; arg] =>
      if String.eqb cmd "udevadm" && String.eqb arg "settle"
      then Some CalledProcessError else None
  | _ => None
  end.

(** Every [nmcli] call exits non-zero, all else succeeds. *)
Definition nmcli_fails (a : action) : option exn :=
  match a with
  | Nmcli _ => Some CalledProcessError
  | _ => None
  end.

(** * Properties *)

(** ** Strings, dictionaries and loops *)

Ltac case_eqb a b :=
  destruct (String.eqb_spec a b); simplify_eq; try done.

Lemma value_eq_str_true v s : value_eq_str v s = true ↔ v = VStr s.
Proof.
  destruct v; simpl; try (split; [done | by intros ?]).
  rewrite String.eqb_eq. split; congruence.
Qed.

Module DictFacts.
Section facts.
Context {V : Type}.
Implicit Types (d : list (string * V)) (k : string) (v : V).

Lemma get_set_eq d k v : Dict.get (Dict.set d k v) k = Some v.
Proof.
  induction d as [|[k' v'] d IH]; simpl.
  - by rewrite String.eqb_refl.
  - case_eqb k' k; simpl.
    + by rewrite String.eqb_refl.
    + by destruct (String.eqb_spec k' k).
Qed.

Lemma get_set_ne d k k' v :
  k ≠ k' → Dict.get (Dict.set d k v) k' = Dict.get d k'.
Proof.
  intros Hne. induction d as [|[k0 v0] d IH]; simpl.
  - by case_eqb k k'.
  - case_eqb k0 k; simpl.
    + by case_eqb k k'.
    + by rewrite IH.
Qed.

Lemma set_set d k v w : Dict.set (Dict.set d k v) k w = Dict.set d k w.
Proof.
  induction d as [|[k0 v0] d IH]; simpl.
  - by rewrite String.eqb_refl.
  - case_eqb k0 k; simpl.
    + by rewrite String.eqb_refl.
    + destruct (String.eqb_spec k0 k); [done|]. by rewrite IH.
Qed.

Lemma contains_true d k : Dict.contains d k = true ↔ is_Some (Dict.get d k).
Proof.
  unfold Dict.contains. destruct (Dict.get d k) eqn:E.
  - split; eauto.
  - split; [done | by intros [? ?]].
Qed.

Lemma get_app_ne d1 d2 k k' v :
  k ≠ k' → Dict.get (d1 ++ (k, v) :: d2) k' = Dict.get (d1 ++ d2) k'.
Proof.
  intros Hne. induction d1 as [|[k0 v0] d1 IH]; simpl.
  - by case_eqb k k'.
  - by rewrite IH.
Qed.
End facts.
End DictFacts.

Section loops.
Context {A S : Type} (body : S → A → result S).

Lemma for_each_app l1 l2 s :
  for_each body (l1 ++ l2) s = (s' <- for_each body l1 s ;; for_each body l2 s').
Proof.
  revert s. induction l1 as [|a l1 IH]; intros s; simpl; [done|].
  destruct (body s a); simpl; [apply IH | done].
Qed.

(** An invariant of the loop variables holds after a loop that ends. *)
Lemma for_each_invariant (P : S → Prop) l s s' :
  (∀ s0 a s1, a ∈ l → P s0 → body s0 a = Ok s1 → P s1) →
  P s → for_each body l s = Ok s' → P s'.
Proof.
  revert s. induction l as [|a l IH]; intros s Hstep Hs; simpl.
  - by intros [= <-].
  - destruct (body s a) as [s1|] eqn:Hb; simpl; [|done].
    apply IH.
    + intros s0 a0 s2 Hin. apply Hstep. by right.
    + eapply Hstep; [by left | done | done].
Qed.
End loops.

(** ** The planner, one interface at a time *)

Section planner.
Context (phys : list (string * value)).
Context (composite_interfaces : list (list (string * value))).
Context (m : matches) (sys : links).

Lemma match_link_hit table key changes interface :
  match_link table key changes interface
  = write changes interface (hit table key interface).
Proof.
  unfold match_link, hit, record_change.
  destruct key as [k|]; [|done].
  destruct (table !! k) as [v|]; [|done].
  by destruct (value_eq_str v interface).
Qed.

Lemma link_change_planned changes interface :
  link_change phys composite_interfaces m sys changes interface
  = (p <- planned phys composite_interfaces m sys interface ;;
     Ok (write changes interface p)).
Proof.
  unfold link_change, planned.
  destruct (Dict.contains phys interface); simpl; [|done].
  destruct (is_composite_member _ _) as [[]|]; simpl; try done.
  destruct (operstate sys interface) as [text|]; [|done].
  destruct (String.eqb (strip text) "down"); simpl; [|done].
  destruct (link_addr sys interface) as [mac|]; simpl; [|done].
  rewrite !match_link_hit. unfold target, write.
  destruct (hit (by_mac m) mac interface),
    (hit (by_driver m) (driver_name sys interface) interface);
    try done.
  by rewrite DictFacts.set_set.
Qed.

Lemma write_get_ne changes interface p i :
  interface ≠ i → Dict.get (write changes interface p) i = Dict.get changes i.
Proof.
  intros Hne. destruct p; simpl; [|done]. by apply DictFacts.get_set_ne.
Qed.

Lemma write_get_eq changes interface p :
  Dict.get (write changes interface p) interface
  = from_option (λ v, Some (entry v)) (Dict.get changes interface) p.
Proof. destruct p; simpl; [|done]. apply DictFacts.get_set_eq. Qed.

Abbreviation plan := (for_each (link_change phys composite_interfaces m sys)).

(** Interfaces that are not visited keep what the changes held. *)
Lemma plan_get_notin interfaces changes ch i :
  plan interfaces changes = Ok ch → i ∉ interfaces →
  Dict.get ch i = Dict.get changes i.
Proof.
  revert changes. induction interfaces as [|a l IH]; intros changes; simpl.
  - by intros [= <-].
  - rewrite link_change_planned.
    destruct (planned _ _ _ _ a) as [p|]; simpl; [|done].
    intros Hrun Hni. apply not_elem_of_cons in Hni as [Hne Hni].
    rewrite (IH _ Hrun Hni). by apply write_get_ne.
Qed.

(** A visited interface ends with what its own iteration decided. *)
Lemma plan_get_in interfaces changes ch i :
  plan interfaces changes = Ok ch → i ∈ interfaces →
  ∃ p, planned phys composite_interfaces m sys i = Ok p
       ∧ Dict.get ch i
         = from_option (λ v, Some (entry v)) (Dict.get changes i) p.
Proof.
  revert changes. induction interfaces as [|a l IH]; intros changes; simpl.
  - intros _ Hin. by apply elem_of_nil in Hin.
  - rewrite link_change_planned.
    destruct (planned _ _ _ _ a) as [p|] eqn:Hp; simpl; [|done].
    intros Hrun Hin.
    destruct (decide (i ∈ l)) as [Hl|Hl].
    + destruct (IH _ Hrun Hl) as (q & Hq & Hget).
      exists q. split; [done|]. rewrite Hget.
      destruct (decide (a = i)) as [->|Hne].
      * rewrite write_get_eq. rewrite Hp in Hq. simplify_eq.
        by destruct q.
      * by rewrite write_get_ne.
    + apply elem_of_cons in Hin as [->|Hin]; [|done].
      exists p. split; [done|].
      rewrite (plan_get_notin _ _ _ _ Hrun Hl). apply write_get_eq.
Qed.

(** A pass in which no iteration decides anything leaves the changes. *)
Lemma plan_nothing interfaces changes :
  (∀ i, i ∈ interfaces →
        planned phys composite_interfaces m sys i = Ok None) →
  plan interfaces changes = Ok changes.
Proof.
  induction interfaces as [|a l IH]; intros Hall; simpl; [done|].
  rewrite link_change_planned, (Hall a) by (by left). simpl.
  apply IH. intros i Hi. apply Hall. by right.
Qed.
End planner.

(** The changeset of a whole run, key by key. *)
Lemma process_link_changes_get interfaces cfg sys ch :
  process_link_changes interfaces cfg sys = Ok ch →
  ∃ m, match_tables (physical_interfaces cfg) = Ok m ∧
    ∀ i,
      (i ∈ interfaces →
       ∃ p, planned (physical_interfaces cfg) [bridges cfg; bonds cfg] m sys i
            = Ok p
            ∧ Dict.get ch i = entry <$> p)
      ∧ (i ∉ interfaces → Dict.get ch i = None).
Proof.
  unfold process_link_changes.
  destruct (match_tables (physical_interfaces cfg)) as [m|]; simpl; [|done].
  intros Hrun. exists m. split; [done|]. intros i. split.
  - intros Hin. destruct (plan_get_in _ _ _ _ _ _ _ i Hrun Hin) as (p & Hp & Hget).
    exists p. split; [done|]. rewrite Hget. by destruct p.
  - intros Hni. by rewrite (plan_get_notin _ _ _ _ _ _ _ i Hrun Hni).
Qed.

(** An interface whose iteration decides nothing is not in the changeset. *)
Lemma process_link_changes_skips interfaces cfg sys ch i :
  process_link_changes interfaces cfg sys = Ok ch →
  (∀ m p, planned (physical_interfaces cfg) [bridges cfg; bonds cfg] m sys i
          = Ok p → p = None) →
  Dict.get ch i = None.
Proof.
  intros Hrun Hskip.
  destruct (process_link_changes_get _ _ _ _ Hrun) as (m & _ & Hget).
  destruct (decide (i ∈ interfaces)) as [Hin|Hni].
  - destruct (proj1 (Hget i) Hin) as (p & Hp & ->).
    by rewrite (Hskip _ _ Hp).
  - by apply Hget.
Qed.

(** ** Composite membership *)

Lemma has_member_true members phy :
  has_member members phy = true ↔ VStr phy ∈ members.
Proof.
  unfold has_member. rewrite existsb_exists. split.
  - intros (v & Hin & Heq). apply value_eq_str_true in Heq as ->.
    by apply list_elem_of_In.
  - intros Hin. exists (VStr phy). split; [by apply list_elem_of_In|].
    by apply value_eq_str_true.
Qed.

Lemma composite_has_member_sound composite phy :
  composite_has_member composite phy = Ok false →
  ∀ id settings members,
    (id, VDict settings) ∈ composite →
    Dict.get settings "interfaces" = Some (VList members) →
    VStr phy ∉ members.
Proof.
  induction composite as [|[id0 s0] items IH]; simpl.
  - intros _ id settings members Hin. by apply elem_of_nil in Hin.
  - destruct (py_get s0 "interfaces" (VList [])) as [ms|] eqn:Hget; simpl; [|done].
    destruct (py_iter ms) as [ifaces|] eqn:Hiter; simpl; [|done].
    destruct (has_member ifaces phy) eqn:Hhas; [done|].
    intros Hrest id settings members Hin Hms.
    apply elem_of_cons in Hin as [Heq|Hin]; [|by eapply IH].
    simplify_eq. simpl in Hget. rewrite Hms in Hget. simplify_eq.
    simpl in Hiter. simplify_eq.
    rewrite <-has_member_true. by rewrite Hhas.
Qed.

Lemma composite_has_member_complete composite phy :
  well_formed_composite composite = true →
  ∃ b, composite_has_member composite phy = Ok b ∧
    (b = true → ∃ id settings members,
       (id, VDict settings) ∈ composite
       ∧ Dict.get settings "interfaces" = Some (VList members)
       ∧ VStr phy ∈ members).
Proof.
  unfold well_formed_composite.
  induction composite as [|[id0 s0] items IH]; simpl.
  - by exists false.
  - intros [Hs0 Hitems]%andb_true_iff.
    destruct (IH Hitems) as (b & Hb & Hfound). clear IH.
    assert (∀ id s ms,
      (id, VDict s) ∈ items ∧ Dict.get s "interfaces" = Some (VList ms)
      ∧ VStr phy ∈ ms →
      (id, VDict s) ∈ (id0, s0) :: items
      ∧ Dict.get s "interfaces" = Some (VList ms) ∧ VStr phy ∈ ms) as Hweaken.
    { intros id s ms (? & ? & ?). split; [by right | done]. }
    destruct s0 as [| |?|d]; simpl in Hs0; try done. simpl.
    destruct (Dict.get d "interfaces") as [[| |members|]|] eqn:Hd;
      try done; simpl.
    + destruct (has_member members phy) eqn:Hhas.
      * exists true. split; [done|]. intros _.
        exists id0, d, members. split; [by left|]. split; [done|].
        by apply has_member_true.
      * exists b. split; [done|]. intros Ht.
        destruct (Hfound Ht) as (id & s & ms & Hin).
        exists id, s, ms. by apply Hweaken.
    + exists b. split; [done|]. intros Ht.
      destruct (Hfound Ht) as (id & s & ms & Hin).
      exists id, s, ms. by apply Hweaken.
Qed.

Lemma is_composite_member_sound composites phy :
  is_composite_member composites phy = Ok false → ¬ declared_member composites phy.
Proof.
  induction composites as [|c cs IH]; simpl.
  - intros _ (c & ? & ? & ? & Hin & _). by apply elem_of_nil in Hin.
  - destruct (composite_has_member c phy) as [[]|] eqn:Hc; simpl; try done.
    intros Hrest (c' & id & s & ms & Hin & Hitem & Hms & Hphy).
    apply elem_of_cons in Hin as [->|Hin].
    + by eapply composite_has_member_sound.
    + apply (IH Hrest). by exists c', id, s, ms.
Qed.

Lemma is_composite_member_complete composites phy :
  forallb well_formed_composite composites = true →
  ∃ b, is_composite_member composites phy = Ok b
       ∧ (b = true → declared_member composites phy).
Proof.
  induction composites as [|c cs IH]; simpl.
  - by exists false.
  - intros [Hc Hcs]%andb_true_iff.
    destruct (IH Hcs) as (b & Hb & Hfound).
    destruct (composite_has_member_complete c phy Hc) as (bc & -> & Hbc). simpl.
    destruct bc.
    + exists true. split; [done|]. intros _.
      destruct (Hbc eq_refl) as (id & s & ms & ? & ? & ?).
      exists c, id, s, ms. split; [by left | done].
    + exists b. split; [done|]. intros Ht.
      destruct (Hfound Ht) as (c' & id & s & ms & ? & ?).
      exists c', id, s, ms. split; [by right | done].
Qed.

(** ** Restart decisions *)

(** C1. The restart decision of [command_apply] for a backend is false when
    its artifacts are absent both before and after generation, and true in
    the three other cases: present before and absent after, absent before
    and present after, present both before and after. *)
Theorem restart_decision_cases :
  restart_decision false false = false
  ∧ restart_decision true false = true
  ∧ restart_decision false true = true
  ∧ restart_decision true true = true.
Proof. by repeat split. Qed.

(** ** Safety of the planner *)

(** C2. An interface that reaches the two lookups (declared physical, member
    of no composite, operstate [down]) whose driver maps to [A] in the
    by-driver table and whose hardware address maps to [B] in the by-mac
    table, [B] different from its current name, is mapped to [B] by the
    changeset [process_link_changes] returns, whatever [A] is: the by-mac
    match overwrites the by-driver match. *)
Theorem mac_match_overrides_driver_match
  (interfaces : list string) (cfg : config_manager) (sys : links)
  (m : matches) (ch : list (string * value)) (interface text driver mac : string)
  (A B : value) :
  match_tables (physical_interfaces cfg) = Ok m →
  interface ∈ interfaces →
  Dict.contains (physical_interfaces cfg) interface = true →
  is_composite_member [bridges cfg; bonds cfg] interface = Ok false →
  operstate sys interface = Some text →
  strip text = "down" →
  driver_name sys interface = Some driver →
  link_addr sys interface = Ok (Some mac) →
  by_driver m !! driver = Some A →
  by_mac m !! mac = Some B →
  B ≠ VStr interface →
  process_link_changes interfaces cfg sys = Ok ch →
  Dict.get ch interface = Some (VDict [("name", B)]).
Proof.
  intros Hm Hin Hphy Hcomp Hstate Hdown Hdrv Hmac HA HB Hne Hrun.
  destruct (process_link_changes_get _ _ _ _ Hrun) as (m' & Hm' & Hget).
  rewrite Hm in Hm'. simplify_eq.
  destruct (proj1 (Hget interface) Hin) as (p & Hp & ->).
  unfold planned in Hp. rewrite Hphy, Hcomp, Hstate, Hdown in Hp.
  simpl in Hp. rewrite Hmac in Hp. simpl in Hp. simplify_eq.
  unfold target, hit. rewrite HB.
  destruct (value_eq_str B interface) eqn:Heq; [|done].
  by apply value_eq_str_true in Heq.
Qed.

(** C3. An interface listed as a member of a declared bridge or bond is
    never in the changeset [process_link_changes] returns, whatever the
    by-driver and by-mac tables hold; and on well-formed composites
    [is_composite_member] returns, and returns true iff the name is in some
    composite's member list. *)
Theorem composite_members_are_never_renamed
  (interfaces : list string) (cfg : config_manager) (sys : links)
  (composites : list (list (string * value))) (phy : string) :
  (∀ ch, process_link_changes interfaces cfg sys = Ok ch →
         declared_member [bridges cfg; bonds cfg] phy →
         Dict.get ch phy = None)
  ∧ (forallb well_formed_composite composites = true →
     ∃ b, is_composite_member composites phy = Ok b
          ∧ (b = true ↔ declared_member composites phy)).
Proof.
  split.
  - intros ch Hrun Hmember.
    apply (process_link_changes_skips _ _ _ _ _ Hrun).
    intros m p. unfold planned.
    destruct (is_composite_member _ phy) as [[]|] eqn:Hc;
      destruct (Dict.contains _ phy); simpl; try congruence.
    by apply is_composite_member_sound in Hc.
  - intros Hwf.
    destruct (is_composite_member_complete composites phy Hwf) as (b & Hb & Hfound).
    exists b. split; [done|]. split; [done|].
    intros Hmember. destruct b; [done|].
    by apply is_composite_member_sound in Hb.
Qed.

(** C4. An interface whose operstate file reads, once stripped, as anything
    other than [down] is never in the changeset [process_link_changes]
    returns. *)
Theorem up_interfaces_are_never_renamed
  (interfaces : list string) (cfg : config_manager) (sys : links)
  (ch : list (string * value)) (interface text : string) :
  operstate sys interface = Some text →
  strip text ≠ "down" →
  process_link_changes interfaces cfg sys = Ok ch →
  Dict.get ch interface = None.
Proof.
  intros Hstate Hup Hrun.
  apply (process_link_changes_skips _ _ _ _ _ Hrun).
  intros m p. unfold planned. rewrite Hstate.
  destruct (is_composite_member _ interface) as [[]|];
    destruct (Dict.contains _ interface); simpl; try congruence.
  destruct (String.eqb_spec (strip text) "down"); simpl; [done|congruence].
Qed.

Lemma mac_match_overrides_driver_match_witness :
  ∃ ch, process_link_changes ["eth0"] both_match (one_nic "down") = Ok ch
        ∧ Dict.get ch "eth0" = Some (VDict [("name", VStr "ethB")]).
Proof.
  exists [("eth0", VDict [("name", VStr "ethB")])].
  split; [by vm_compute|].
  eapply (mac_match_overrides_driver_match ["eth0"] both_match (one_nic "down")
            _ _ "eth0" ("down" +:+ newline) "e1000" "aa:bb:cc:dd:ee:ff"
            (VStr "ethA") (VStr "ethB"));
    try (by vm_compute).
  by left.
Defined.

Lemma composite_members_are_never_renamed_witness :
  (∃ ch, process_link_changes ["eth0"] bridged (one_nic "down") = Ok ch
         ∧ Dict.get ch "eth0" = None)
  ∧ ∃ b, is_composite_member [bridges bridged; bonds bridged] "eth0" = Ok b
         ∧ (b = true ↔ declared_member [bridges bridged; bonds bridged] "eth0").
Proof.
  destruct (composite_members_are_never_renamed ["eth0"] bridged
              (one_nic "down") [bridges bridged; bonds bridged] "eth0")
    as [Hnever Hiff].
  split.
  - exists []. split; [by vm_compute|].
    apply Hnever; [by vm_compute|].
    exists (bridges bridged), "br0", [("interfaces", VList [VStr "eth0"])],
      [VStr "eth0"].
    repeat split; by left.
  - apply Hiff. reflexivity.
Defined.

Lemma up_interfaces_are_never_renamed_witness :
  ∃ ch, process_link_changes ["eth0"] both_match (one_nic "up") = Ok ch
        ∧ Dict.get ch "eth0" = None.
Proof.
  exists []. split; [by vm_compute|].
  apply (up_interfaces_are_never_renamed ["eth0"] both_match (one_nic "up")
           [] "eth0" ("up" +:+ newline)).
  - reflexivity.
  - by vm_compute.
  - by vm_compute.
Defined.

(** The planner on three interfaces, one of them up: the two that are
    down are renamed, each by the table that matches it. *)
Example three_interfaces :
  process_link_changes ["lo"; "eth0"; "eth1"; "eth2"] three_declared three_nics
  = Ok [("eth1", VDict [("name", VStr "lan0")]);
        ("eth2", VDict [("name", VStr "wan0")])].
Proof. by vm_compute. Qed.

(** ** The match-table builder *)

Lemma truthy_dict_cons d : d ≠ [] → truthy (VDict d) = true.
Proof. by destruct d. Qed.

Lemma get_Some_truthy (d : list (string * value)) k v :
  Dict.get d k = Some v → truthy (VDict d) = true.
Proof. by destruct d. Qed.

Lemma set_if_truthy_declared table k newname :
  k ≠ "" →
  set_if_truthy table (VStr k) newname = Ok (<[k := newname]> table).
Proof.
  intros Hk. unfold set_if_truthy. simpl.
  by destruct (String.eqb_spec k "").
Qed.

Lemma set_if_truthy_lookup_ne table key newname table' k :
  set_if_truthy table key newname = Ok table' →
  ¬ (key = VStr k ∧ k ≠ "") →
  table' !! k = table !! k.
Proof.
  unfold set_if_truthy. destruct (truthy key) eqn:Ht; [|by intros [= <-]].
  destruct key as [|s| |]; try done. intros [= <-] Hne.
  apply lookup_insert_ne. intros ->. apply Hne. split; [done|].
  intros ->. done.
Qed.

Lemma set_if_truthy_ok_indep table table' key newname :
  is_ok (set_if_truthy table key newname)
  = is_ok (set_if_truthy table' key newname).
Proof. unfold set_if_truthy. by destruct (truthy key), key. Qed.

(** An active rule goes through to the two table updates. *)
Lemma match_rule_active m item newname match_ :
  active_rule item newname match_ →
  match_rule m item
  = (bd <- set_if_truthy (by_driver m)
             (from_option id VNone (Dict.get match_ "driver")) newname ;;
     bm <- set_if_truthy (by_mac m)
             (from_option id VNone (Dict.get match_ "macaddress")) newname ;;
     Ok (Matches bd bm)).
Proof.
  destruct item as [phy settings].
  intros (s & Hs & Hphy & Hname & Htruthy & Hmatch & Hne). simpl in *. subst.
  unfold match_rule. rewrite (get_Some_truthy _ _ _ Hname). simpl.
  destruct (String.eqb_spec phy "renderer"); [done|].
  rewrite Hname, Hmatch. simpl. rewrite Htruthy. simpl.
  by destruct match_.
Qed.

(** Whatever the builder does for an entry, it is a skip or the two table
    updates of an active rule. *)
Lemma match_rule_inv m item m' :
  match_rule m item = Ok m' →
  m' = m ∨
  ∃ newname match_,
    active_rule item newname match_
    ∧ set_if_truthy (by_driver m)
        (from_option id VNone (Dict.get match_ "driver")) newname
      = Ok (by_driver m')
    ∧ set_if_truthy (by_mac m)
        (from_option id VNone (Dict.get match_ "macaddress")) newname
      = Ok (by_mac m').
Proof.
  destruct item as [phy settings]. unfold match_rule.
  destruct (truthy settings) eqn:Hs; simpl; [|intros [= <-]; by left].
  destruct (String.eqb_spec phy "renderer"); [intros [= <-]; by left|].
  destruct settings as [| | |s]; simpl; try done.
  destruct (Dict.get s "set-name") as [newname|] eqn:Hname; simpl;
    [|intros [= <-]; by left].
  destruct (truthy newname) eqn:Hn; simpl; [|intros [= <-]; by left].
  destruct (Dict.get s "match") as [match_|] eqn:Hmatch; simpl;
    [|intros [= <-]; by left].
  destruct (truthy match_) eqn:Hm; simpl; [|intros [= <-]; by left].
  destruct match_ as [| | |mt]; simpl; try done.
  destruct (set_if_truthy (by_driver m) _ newname) as [bd|] eqn:Hbd; simpl;
    [|done].
  destruct (set_if_truthy (by_mac m) _ newname) as [bm|] eqn:Hbm; simpl;
    [|done].
  intros [= <-]. right. exists newname, mt. simpl. split; [|done].
  exists s. simpl. repeat split; try done. by destruct mt.
Qed.

Lemma match_rule_ok_indep m item : is_ok (match_rule m item) = rule_ok item.
Proof.
  unfold rule_ok. destruct item as [phy settings]. unfold match_rule.
  destruct (truthy settings); simpl; [|done].
  destruct (String.eqb phy "renderer"); [done|].
  destruct (py_get settings "set-name" VNone) as [newname|]; simpl; [|done].
  destruct (truthy newname); simpl; [|done].
  destruct (py_get settings "match" VNone) as [match_|]; simpl; [|done].
  destruct (truthy match_); simpl; [|done].
  destruct (py_get match_ "driver" VNone) as [driver|]; simpl; [|done].
  destruct (py_get match_ "macaddress" VNone) as [mac|]; simpl; [|done].
  pose proof (set_if_truthy_ok_indep (by_driver m) ∅ driver newname) as Hd.
  pose proof (set_if_truthy_ok_indep (by_mac m) ∅ mac newname) as Hm.
  destruct (set_if_truthy (by_driver m) driver newname),
    (set_if_truthy ∅ driver newname); simpl in *; try done.
  by destruct (set_if_truthy (by_mac m) mac newname),
    (set_if_truthy ∅ mac newname).
Qed.

(** The builder raises only where one entry on its own does. *)
Lemma for_each_match_rule_ok phys m :
  forallb rule_ok phys = true → ∃ m', for_each match_rule phys m = Ok m'.
Proof.
  revert m. induction phys as [|item phys IH]; intros m; simpl.
  - by exists m.
  - intros [Hitem Hphys]%andb_true_iff.
    rewrite <-(match_rule_ok_indep m) in Hitem.
    destruct (match_rule m item) as [m1|]; [|done]. simpl. by apply IH.
Qed.

Lemma inert_skipped m item : inert item = true → match_rule m item = Ok m.
Proof.
  destruct item as [phy settings]. unfold inert, match_rule. simpl.
  destruct (truthy settings) eqn:Hs; simpl; [|done].
  destruct (String.eqb phy "renderer"); simpl; [done|].
  destruct settings as [| | |s]; simpl; try done.
  destruct (truthy (from_option id VNone (Dict.get s "set-name"))); simpl;
    [|done].
  by destruct (truthy (from_option id VNone (Dict.get s "match"))).
Qed.

Lemma from_option_VStr (o : option value) k :
  from_option id VNone o = VStr k → o = Some (VStr k).
Proof. destruct o; simpl; intros Heq; by simplify_eq. Qed.

Lemma match_rule_driver_declared m item m' key newname :
  declares "driver" item key newname →
  match_rule m item = Ok m' → by_driver m' !! key = Some newname.
Proof.
  intros (mt & Hactive & Hkey & Hne).
  rewrite (match_rule_active _ _ _ _ Hactive), Hkey. simpl.
  rewrite (set_if_truthy_declared _ _ _ Hne). simpl.
  destruct (set_if_truthy (by_mac m) _ newname); simpl; [|done].
  intros [= <-]. simpl. apply lookup_insert_eq.
Qed.

Lemma match_rule_mac_declared m item m' key newname :
  declares "macaddress" item key newname →
  match_rule m item = Ok m' → by_mac m' !! key = Some newname.
Proof.
  intros (mt & Hactive & Hkey & Hne).
  rewrite (match_rule_active _ _ _ _ Hactive), Hkey.
  destruct (set_if_truthy (by_driver m) _ newname); simpl; [|done].
  rewrite (set_if_truthy_declared _ _ _ Hne). simpl.
  intros [= <-]. simpl. apply lookup_insert_eq.
Qed.

Lemma match_rule_driver_kept m item m' key :
  (∀ newname, ¬ declares "driver" item key newname) →
  match_rule m item = Ok m' → by_driver m' !! key = by_driver m !! key.
Proof.
  intros Hnone [->|(newname & mt & Hactive & Hbd & _)]%match_rule_inv; [done|].
  apply (set_if_truthy_lookup_ne _ _ _ _ _ Hbd). intros [Hkey Hne].
  apply (Hnone newname). exists mt. by apply from_option_VStr in Hkey.
Qed.

Lemma match_rule_mac_kept m item m' key :
  (∀ newname, ¬ declares "macaddress" item key newname) →
  match_rule m item = Ok m' → by_mac m' !! key = by_mac m !! key.
Proof.
  intros Hnone [->|(newname & mt & Hactive & _ & Hbm)]%match_rule_inv; [done|].
  apply (set_if_truthy_lookup_ne _ _ _ _ _ Hbm). intros [Hkey Hne].
  apply (Hnone newname). exists mt. by apply from_option_VStr in Hkey.
Qed.

Lemma match_rule_declared field m item m' key newname :
  match_field field → declares field item key newname →
  match_rule m item = Ok m' → table field m' !! key = Some newname.
Proof.
  intros [->| ->]; unfold table; simpl.
  - apply match_rule_driver_declared.
  - apply match_rule_mac_declared.
Qed.

Lemma match_rule_kept field m item m' key :
  match_field field → (∀ newname, ¬ declares field item key newname) →
  match_rule m item = Ok m' → table field m' !! key = table field m !! key.
Proof.
  intros [->| ->]; unfold table; simpl.
  - apply match_rule_driver_kept.
  - apply match_rule_mac_kept.
Qed.

Lemma for_each_match_rule_kept field phys m m' key :
  match_field field →
  (∀ item newname, item ∈ phys → ¬ declares field item key newname) →
  for_each match_rule phys m = Ok m' →
  table field m' !! key = table field m !! key.
Proof.
  intros Hfield Hnone.
  apply (for_each_invariant match_rule
           (λ s, table field s !! key = table field m !! key)); [|done].
  intros s0 item s1 Hin Hs0 Hstep.
  rewrite <-Hs0. eapply match_rule_kept; [done| |done].
  intros newname. by apply Hnone.
Qed.

(** The last rule that declares a key is the one the table holds. *)
Lemma match_tables_last field pre item post m key newname :
  match_field field → declares field item key newname →
  (∀ later n, later ∈ post → ¬ declares field later key n) →
  match_tables (pre ++ item :: post) = Ok m →
  table field m !! key = Some newname.
Proof.
  intros Hfield Hitem Hpost. unfold match_tables.
  rewrite for_each_app. destruct (for_each match_rule pre no_matches) as [m0|];
    simpl; [|done].
  destruct (match_rule m0 item) as [m1|] eqn:Hm1; simpl; [|done].
  intros Hrest.
  rewrite (for_each_match_rule_kept field post m1 m key Hfield Hpost Hrest).
  by eapply match_rule_declared.
Qed.

(** C6. Of two rules that declare the same driver (or the same hardware
    address), the by-driver (by-mac) table holds the target name of the
    later-processed one, and the builder returns: declaring a key twice is
    not an error. *)
Theorem later_rule_wins
  (pre mid post : list (string * value)) (first second : string * value)
  (key : string) (name1 name2 : value) :
  forallb rule_ok (pre ++ first :: mid ++ second :: post) = true →
  ∃ m, match_tables (pre ++ first :: mid ++ second :: post) = Ok m
    ∧ (declares "driver" first key name1 →
       declares "driver" second key name2 →
       (∀ later n, later ∈ post → ¬ declares "driver" later key n) →
       by_driver m !! key = Some name2)
    ∧ (declares "macaddress" first key name1 →
       declares "macaddress" second key name2 →
       (∀ later n, later ∈ post → ¬ declares "macaddress" later key n) →
       by_mac m !! key = Some name2).
Proof.
  intros Hok.
  destruct (for_each_match_rule_ok _ no_matches Hok) as (m & Hm).
  exists m. split; [done|].
  assert (pre ++ first :: mid ++ second :: post
          = (pre ++ first :: mid) ++ second :: post) as Hsplit
    by (by rewrite <-app_assoc).
  rewrite Hsplit in Hm.
  split; intros _ Hsecond Hpost.
  - apply (match_tables_last "driver" (pre ++ first :: mid) second post
             m key name2); try done. by left.
  - apply (match_tables_last "macaddress" (pre ++ first :: mid) second post
             m key name2); try done. by right.
Qed.

Lemma rule_declares field id name key :
  id ≠ "renderer" → name ≠ "" → key ≠ "" →
  declares field (id, rule name field key) key (VStr name).
Proof.
  intros Hid Hname Hkey. exists [(field, VStr key)]. split.
  - exists [("set-name", VStr name); ("match", VDict [(field, VStr key)])].
    simpl. repeat split; try done. by destruct (String.eqb_spec name "").
  - simpl. by rewrite String.eqb_refl.
Qed.

Lemma later_rule_wins_witness :
  ∃ m, match_tables [("eth0", rule "lan0" "driver" "e1000");
                     ("eth1", rule "lan1" "driver" "e1000")] = Ok m
       ∧ by_driver m !! "e1000" = Some (VStr "lan1").
Proof.
  destruct (later_rule_wins [] [] []
              ("eth0", rule "lan0" "driver" "e1000")
              ("eth1", rule "lan1" "driver" "e1000")
              "e1000" (VStr "lan0") (VStr "lan1"))
    as (m & Hm & Hdriver & _); [reflexivity|].
  exists m. split; [done|]. apply Hdriver.
  - by apply rule_declares.
  - by apply rule_declares.
  - intros later n Hin. by apply elem_of_nil in Hin.
Defined.

Lemma planned_some phys composite_interfaces m sys interface new_name :
  planned phys composite_interfaces m sys interface = Ok (Some new_name) →
  ∃ key, by_driver m !! key = Some new_name ∨ by_mac m !! key = Some new_name.
Proof.
  unfold planned.
  destruct (is_composite_member _ interface) as [[]|];
    destruct (Dict.contains _ interface); simpl; try done.
  destruct (operstate sys interface); [|done].
  destruct (negb _); [done|].
  destruct (link_addr sys interface) as [mac|]; simpl; [|done].
  unfold target, hit. intros [= Htarget].
  destruct mac as [k|].
  - destruct (by_mac m !! k) as [v|] eqn:Hk.
    + destruct (value_eq_str v interface).
      * destruct (driver_name sys interface) as [k'|]; [|done].
        destruct (by_driver m !! k') as [v'|] eqn:Hk'; [|done].
        destruct (value_eq_str v' interface); [done|].
        simplify_eq. exists k'. by left.
      * simplify_eq. exists k. by right.
    + destruct (driver_name sys interface) as [k'|]; [|done].
      destruct (by_driver m !! k') as [v'|] eqn:Hk'; [|done].
      destruct (value_eq_str v' interface); [done|].
      simplify_eq. exists k'. by left.
  - destruct (driver_name sys interface) as [k'|]; [|done].
    destruct (by_driver m !! k') as [v'|] eqn:Hk'; [|done].
    destruct (value_eq_str v' interface); [done|].
    simplify_eq. exists k'. by left.
Qed.

(** C9. An entry under the key [renderer], an entry with empty settings, an
    entry without a target name and an entry without a match block are
    skipped without an exception and leave both tables as they were; the
    tables are those built without the entry, and every rename of the
    changeset carries a name that these tables hold: the entry produces no
    rename. *)
Theorem inert_rules_are_skipped (item : string * value) :
  inert item = true →
  (∀ m, match_rule m item = Ok m)
  ∧ (∀ pre post,
       match_tables (pre ++ item :: post) = match_tables (pre ++ post))
  ∧ (∀ pre post interfaces cfg sys ch i change,
       physical_interfaces cfg = pre ++ item :: post →
       process_link_changes interfaces cfg sys = Ok ch →
       Dict.get ch i = Some change →
       ∃ m key new_name,
         match_tables (pre ++ post) = Ok m
         ∧ change = VDict [("name", new_name)]
         ∧ (by_driver m !! key = Some new_name
            ∨ by_mac m !! key = Some new_name)).
Proof.
  intros Hinert.
  assert (∀ pre post,
    match_tables (pre ++ item :: post) = match_tables (pre ++ post)) as Hsame.
  { intros pre post. unfold match_tables. rewrite !for_each_app.
    destruct (for_each match_rule pre no_matches) as [m|]; simpl; [|done].
    by rewrite (inert_skipped m item Hinert). }
  split; [intros m; by apply inert_skipped|]. split; [done|].
  intros pre post interfaces cfg sys ch i change Hphys Hrun Hget.
  destruct (process_link_changes_get _ _ _ _ Hrun) as (m & Hm & Hch).
  rewrite Hphys, Hsame in Hm.
  destruct (decide (i ∈ interfaces)) as [Hin|Hni].
  - destruct (proj1 (Hch i) Hin) as (p & Hp & Hi).
    rewrite Hget in Hi. destruct p as [new_name|]; [|done].
    simpl in Hi. simplify_eq.
    destruct (planned_some _ _ _ _ _ _ Hp) as (key & Hkey).
    by exists m, key, new_name.
  - rewrite (proj2 (Hch i) Hni) in Hget. done.
Qed.

Lemma inert_rules_are_skipped_witness :
  match_rule no_matches ("renderer", VStr "networkd") = Ok no_matches
  ∧ match_rule no_matches ("eth0", VDict []) = Ok no_matches
  ∧ match_rule no_matches
      ("eth0", VDict [("match", VDict [("driver", VStr "e1000")])])
    = Ok no_matches
  ∧ match_rule no_matches ("eth0", VDict [("set-name", VStr "lan0")])
    = Ok no_matches.
Proof.
  split; [|split; [|split]].
  - by apply (inert_rules_are_skipped ("renderer", VStr "networkd")).
  - by apply (inert_rules_are_skipped ("eth0", VDict [])).
  - by apply (inert_rules_are_skipped
                ("eth0", VDict [("match", VDict [("driver", VStr "e1000")])])).
  - by apply (inert_rules_are_skipped ("eth0", VDict [("set-name", VStr "lan0")])).
Defined.

(** ** The orchestrator: which commands run, in which order *)

Section orderly.
Context (h : host).

Lemma orderly_silent {A} lo hi (r : result A) :
  orderly h lo hi (λ t, (r, t)).
Proof.
  intros t. exists r, []. rewrite app_nil_r.
  split; [done|]. split; [constructor|]. split; [constructor|].
  destruct r; simpl; [constructor | left; constructor].
Qed.

Lemma orderly_ret {A} lo hi (a : A) : orderly h lo hi (ret a).
Proof. apply orderly_silent. Qed.

Lemma orderly_raise {A} lo hi e : orderly h lo hi (raise (A := A) e).
Proof. apply orderly_silent. Qed.

Lemma orderly_lift {A} lo hi (r : result A) : orderly h lo hi (lift r).
Proof. apply orderly_silent. Qed.

Lemma orderly_bind {A B} lo mid hi (m : prog A) (f : A → prog B) :
  lo ≤ mid → mid ≤ hi →
  orderly h lo mid m → (∀ x, orderly h mid hi (f x)) →
  orderly h lo hi (x <- m ;; f x).
Proof.
  intros Hlo Hhi Hm Hf t. simpl.
  destruct (Hm t) as (r1 & added1 & -> & Hin1 & Hsort1 & Hout1).
  assert (Forall (λ a, lo ≤ phase a ≤ hi ∧ permitted h a) added1) as Hin1'.
  { eapply Forall_impl; [done|]. intros a [? ?]. split; [lia | done]. }
  destruct r1 as [x|e].
  - destruct (Hf x (t ++ added1)) as (r2 & added2 & -> & Hin2 & Hsort2 & Hout2).
    exists r2, (added1 ++ added2). rewrite app_assoc.
    split; [done|]. split; [|split].
    + apply Forall_app. split; [done|].
      eapply Forall_impl; [done|]. intros a [? ?]. split; [lia | done].
    + apply StronglySorted_app. split; [|done].
      intros a1 a2 Ha1 Ha2.
      rewrite Forall_forall in Hin1. rewrite Forall_forall in Hin2.
      destruct (Hin1 a1 Ha1) as [? _]. destruct (Hin2 a2 Ha2) as [? _]. lia.
    + simpl in Hout1. destruct r2 as [y|e]; simpl in *.
      * by apply Forall_app.
      * destruct Hout2 as [Hquiet|(before & a & -> & Hbefore & Ha & He)].
        -- left. by apply Forall_app.
        -- right. exists (added1 ++ before), a. rewrite app_assoc.
           split; [done|]. split; [by apply Forall_app | done].
  - exists (Raise e), added1. done.
Qed.

Lemma orderly_invoke lo hi a :
  lo ≤ phase a ≤ hi → permitted h a → orderly h lo hi (invoke h a).
Proof.
  intros Hphase Hperm t. unfold invoke.
  exists (match raises h a with None => Ok tt | Some e => Raise e end), [a].
  split; [done|]. split; [by apply Forall_singleton|].
  split; [repeat constructor|].
  destruct (raises h a) as [e|] eqn:Hr; simpl.
  - destruct (fatal h a) eqn:Hf.
    + right. exists [], a. by repeat split.
    + left. by apply Forall_singleton.
  - apply Forall_singleton. unfold fatal. destruct a; try done; by rewrite Hr.
Qed.

Lemma orderly_call_generator : orderly h 0 0 (call_generator h).
Proof.
  intros t. exists (Ok (generator_status h)), [RunGenerator].
  split; [done|]. split; [|split; [repeat constructor|]].
  - apply Forall_singleton. simpl. split; [lia | by intros ?].
  - simpl. by apply Forall_singleton.
Qed.

Lemma orderly_nmcli args :
  restart_nm h = true → nm_running h = true →
  orderly h 1 1 (ignore_called_process_error (invoke h (Nmcli args))).
Proof.
  intros Hrestart Hrunning t. unfold ignore_called_process_error, invoke.
  assert (Forall (λ a, 1 ≤ phase a ≤ 1 ∧ permitted h a) [Nmcli args]) as Hin.
  { apply Forall_singleton. simpl. split; [lia | by intros _]. }
  assert (StronglySorted (λ a b, phase a ≤ phase b) [Nmcli args]) as Hsort.
  { repeat constructor. }
  destruct (raises h (Nmcli args)) as [e|] eqn:Hr.
  - assert (e = CalledProcessError ∨ e ≠ CalledProcessError) as [->|Hne]
      by (destruct e; (by left) || (by right)).
    + exists (Ok tt), [Nmcli args].
      split; [done|]. split; [done|]. split; [done|].
      simpl. apply Forall_singleton. unfold fatal. by rewrite Hr.
    + exists (Raise e), [Nmcli args]. split; [by destruct e|].
      split; [done|]. split; [done|].
      simpl. right. exists [], (Nmcli args).
      split; [done|]. split; [constructor|].
      unfold fatal. rewrite Hr. by destruct e.
  - exists (Ok tt), [Nmcli args].
    split; [done|]. split; [done|]. split; [done|].
    simpl. apply Forall_singleton. unfold fatal. by rewrite Hr.
Qed.

Lemma orderly_for {A} k (l : list A) (body : A → prog unit) :
  (∀ a, a ∈ l → orderly h k k (body a)) → orderly h k k (for_ l body).
Proof.
  induction l as [|a l IH]; intros Hbody; simpl.
  - apply orderly_ret.
  - apply (orderly_bind k k k); [done | done | |].
    + apply Hbody. by left.
    + intros _. apply IH. intros b Hb. apply Hbody. by right.
Qed.

Lemma orderly_when lo hi b (m : prog unit) :
  (b = true → orderly h lo hi m) → orderly h lo hi (when b m).
Proof. destruct b; simpl; intros Hm; [by apply Hm | apply orderly_ret]. Qed.

Lemma orderly_weaken {A} lo hi lo' hi' (m : prog A) :
  lo' ≤ lo → hi ≤ hi' → orderly h lo hi m → orderly h lo' hi' m.
Proof.
  intros Hlo Hhi Hm t.
  destruct (Hm t) as (r & added & -> & Hin & Hsort & Hout).
  exists r, added. split; [done|]. split; [|done].
  eapply Forall_impl; [done|]. intros a [? ?]. split; [lia | done].
Qed.
End orderly.

Section pass.
Context (h : host) (sync : bool).

Lemma orderly_generate run_generate exit_on_error :
  orderly h 0 0 (generate h run_generate exit_on_error).
Proof.
  unfold generate. apply (orderly_bind h 0 0 0); [done | done | |].
  - destruct run_generate; [|apply orderly_ret].
    apply (orderly_bind h 0 0 0); [done | done | |].
    + apply orderly_call_generator.
    + intros status. apply orderly_ret.
  - intros [|]; [|apply orderly_ret].
    destruct exit_on_error; apply orderly_raise.
Qed.

Lemma orderly_stop_network_manager :
  orderly h 1 1 (stop_network_manager h sync (restart_nm h)).
Proof.
  unfold stop_network_manager.
  apply orderly_when. intros Hrestart.
  apply orderly_when. intros Hrunning.
  apply (orderly_bind h 1 1 1); [done | done | |].
  - apply orderly_for. intros device _. by apply orderly_nmcli.
  - intros _. apply orderly_invoke; simpl; [lia | by intros _].
Qed.

Lemma orderly_apply_rename change : orderly h 3 3 (apply_rename h change).
Proof.
  destruct change as [iface settings]. unfold apply_rename.
  apply (orderly_bind h 3 3 3); [done | done | apply orderly_lift |].
  intros name. destruct (truthy name); [|apply orderly_ret].
  destruct name as [|new_name| |]; try apply orderly_raise.
  apply orderly_invoke; simpl; [lia | by intros ?].
Qed.

Lemma orderly_reconcile : orderly h 1 5 (reconcile h sync).
Proof.
  unfold reconcile. fold (restart_nm h).
  apply (orderly_bind h 1 1 5); [lia | lia | |intros _].
  { apply orderly_when. intros _.
    apply orderly_invoke; simpl; [lia | by intros ?]. }
  apply (orderly_bind h 1 1 5); [lia | lia | |intros _].
  { apply orderly_stop_network_manager. }
  apply (orderly_bind h 1 1 5); [lia | lia | apply orderly_lift |].
  intros config.
  apply (orderly_bind h 1 1 5); [lia | lia | apply orderly_lift |].
  intros changes.
  apply (orderly_bind h 1 2 5); [lia | lia | |intros _].
  { apply (orderly_weaken h 2 2); [lia | lia |].
    apply orderly_for. intros device _.
    apply orderly_invoke; simpl; [lia | by intros ?]. }
  apply (orderly_bind h 2 3 5); [lia | lia | |intros _].
  { apply (orderly_weaken h 3 3); [lia | lia |].
    apply orderly_for. intros change _. apply orderly_apply_rename. }
  apply (orderly_bind h 3 4 5); [lia | lia | |intros _].
  { apply (orderly_weaken h 4 4); [lia | lia |].
    apply orderly_invoke; simpl; [lia | by intros ?]. }
  apply (orderly_bind h 4 5 5); [lia | lia | |intros _].
  { apply (orderly_weaken h 5 5); [lia | lia |].
    apply orderly_when. intros _.
    apply orderly_invoke; simpl; [lia | by intros ?]. }
  apply orderly_when. intros _.
  apply orderly_invoke; simpl; [lia | by intros ?].
Qed.

Lemma orderly_command_apply run_generate exit_on_error :
  orderly h 0 5 (command_apply h run_generate sync exit_on_error).
Proof.
  unfold command_apply. apply (orderly_bind h 0 0 5); [lia | lia | |].
  - apply orderly_generate.
  - intros _. apply (orderly_weaken h 1 5); [lia | lia |].
    apply orderly_reconcile.
Qed.
End pass.

(** ** The generator *)

(** C7. When the generator exits non-zero, [command_apply] ends right after
    it: with [SystemExit(os.EX_CONFIG)] if [exit_on_error] is set, with
    [ConfigurationError] otherwise. When generation is skipped or the
    generator exits zero, the generation step returns and the pass goes on
    with the rest of [command_apply]. *)
Theorem generation_failure_is_fatal
  (h : host) (run_generate sync exit_on_error : bool) (t : list action) :
  (run_generate = true → generator_status h ≠ 0%Z →
   command_apply h run_generate sync exit_on_error t
   = (Raise (if exit_on_error then SystemExit EX_CONFIG
             else ConfigurationError "the configuration could not be generated"),
      t ++ [RunGenerator]))
  ∧ (run_generate = true → generator_status h = 0%Z →
     generate h run_generate exit_on_error t = (Ok tt, t ++ [RunGenerator])
     ∧ command_apply h run_generate sync exit_on_error t
       = reconcile h sync (t ++ [RunGenerator]))
  ∧ (run_generate = false →
     generate h run_generate exit_on_error t = (Ok tt, t)
     ∧ command_apply h run_generate sync exit_on_error t = reconcile h sync t).
Proof.
  unfold command_apply, generate, call_generator. split; [|split].
  - intros -> Hstatus. simpl.
    destruct (Z.eqb_spec (generator_status h) 0); [done|]. simpl.
    by destruct exit_on_error.
  - intros -> ->. by simpl.
  - intros ->. by simpl.
Qed.

Lemma generation_failure_is_fatal_witness :
  command_apply (lab 1 true (λ _, None)) true false true []
  = (Raise (SystemExit 78), [RunGenerator])
  ∧ command_apply (lab 1 true (λ _, None)) true false false []
    = (Raise (ConfigurationError "the configuration could not be generated"),
       [RunGenerator])
  ∧ command_apply (lab 0 true (λ _, None)) true false true []
    = reconcile (lab 0 true (λ _, None)) false [RunGenerator]
  ∧ command_apply (lab 1 true (λ _, None)) false false true []
    = reconcile (lab 1 true (λ _, None)) false [].
Proof.
  split; [|split; [|split]].
  - by apply (generation_failure_is_fatal (lab 1 true (λ _, None))
                true false true []).
  - by apply (generation_failure_is_fatal (lab 1 true (λ _, None))
                true false false []).
  - by apply (generation_failure_is_fatal (lab 0 true (λ _, None))
                true false true []).
  - by apply (generation_failure_is_fatal (lab 1 true (λ _, None))
                false false true []).
Defined.

(** ** A failing rename *)

Ltac not_in_trace H :=
  repeat (apply elem_of_cons in H as [H|H]; [discriminate H|]);
  by apply elem_of_nil in H.

(** The planner asks for two renames, the first one fails: the pass ends
    with [CalledProcessError] on it, the second rename is never applied and
    [udevadm settle] never runs. *)
Lemma failed_rename_stops_the_pass :
  process_link_changes ["eth1"; "eth2"] two_rules two_nics
  = Ok [("eth1", VDict [("name", VStr "lan0")]);
        ("eth2", VDict [("name", VStr "wan0")])]
  ∧ ∃ t, command_apply (lab 0 true (rename_fails "eth1")) true false true []
         = (Raise CalledProcessError, t)
         ∧ ip_link_set_name "eth1" "lan0" ∈ t
         ∧ (ip_link_set_name "eth2" "wan0" ∉ t)
         ∧ (udevadm_settle ∉ t).
Proof.
  split; [reflexivity|]. eexists. split; [by vm_compute|].
  split; [|split].
  - do 6 right. left.
  - intros H. not_in_trace H.
  - intros H. not_in_trace H.
Qed.

(** C8, as the code has it. When [ip link set] fails for a planned rename,
    its exception leaves [command_apply]: the failing rename is the last
    command of the pass, every command before it returned, and neither
    [udevadm settle] nor the start of a backend runs. *)
Theorem failed_rename_ends_the_pass
  (h : host) (run_generate sync exit_on_error : bool)
  (r : result unit) (t : list action) (iface new_name : string) (e : exn) :
  command_apply h run_generate sync exit_on_error [] = (r, t) →
  ip_link_set_name iface new_name ∈ t →
  raises h (ip_link_set_name iface new_name) = Some e →
  r = Raise e
  ∧ (∃ before, t = before ++ [ip_link_set_name iface new_name]
               ∧ Forall (λ a, fatal h a = false) before)
  ∧ (udevadm_settle ∉ t)
  ∧ (∀ a, a ∈ t → phase a ≠ 5).
Proof.
  intros Hrun Hin Hraises.
  destruct (orderly_command_apply h sync run_generate exit_on_error [])
    as (r' & added & Hrun' & Hphases & Hsorted & Hout).
  rewrite Hrun in Hrun'. simpl in Hrun'. simplify_eq.
  assert (fatal h (ip_link_set_name iface new_name) = true) as Hfatal.
  { unfold fatal. simpl. unfold ip_link_set_name in Hraises. by rewrite Hraises. }
  set (a := ip_link_set_name iface new_name) in *.
  assert (∀ l, Forall (λ a, fatal h a = false) l → a ∉ l) as Hquiet.
  { intros l Hl Ha. rewrite Forall_forall in Hl.
    specialize (Hl a Ha). congruence. }
  destruct r' as [[]|e']; simpl in Hout.
  { by destruct (Hquiet added). }
  destruct Hout as [Hall|(before & a' & -> & Hbefore & Ha' & He')].
  { by destruct (Hquiet added). }
  apply elem_of_app in Hin as [Hin|Hin]; [by destruct (Hquiet before)|].
  apply list_elem_of_singleton in Hin. subst a'.
  assert (∀ b, b ∈ before ++ [a] → phase b ≤ 3) as Hle.
  { intros b [Hb|Hb]%elem_of_app.
    - apply (StronglySorted_app_1_elem_of _ _ _ b a Hsorted Hb). by left.
    - apply list_elem_of_singleton in Hb. by subst b. }
  split; [rewrite He' in Hraises; by simplify_eq|].
  split; [by exists before|]. split.
  - intros Hsettle. apply Hle in Hsettle. simpl in Hsettle. lia.
  - intros b Hb Hphase. apply Hle in Hb. lia.
Qed.

Lemma failed_rename_ends_the_pass_witness :
  ∃ before,
    command_apply (lab 0 true (rename_fails "eth1")) true false true []
    = (Raise CalledProcessError, before ++ [ip_link_set_name "eth1" "lan0"])
    ∧ udevadm_settle ∉ before ++ [ip_link_set_name "eth1" "lan0"].
Proof.
  destruct (failed_rename_ends_the_pass
              (lab 0 true (rename_fails "eth1")) true false true
              (Raise CalledProcessError)
              [RunGenerator; Nmcli ["device"; "disconnect"; "eth1"];
               Nmcli ["device"; "disconnect"; "eth2"];
               SystemctlNetworkManager "stop" false;
               CheckCall ["udevadm"; "test-builtin"; "net_setup_link";
                          "/sys/class/net/eth1"];
               CheckCall ["udevadm"; "test-builtin"; "net_setup_link";
                          "/sys/class/net/eth2"];
               ip_link_set_name "eth1" "lan0"]
              "eth1" "lan0" CalledProcessError)
    as (_ & (before & Hbefore & _) & Hsettle & _).
  - by vm_compute.
  - do 6 right. left.
  - reflexivity.
  - exists before. rewrite <-Hbefore. split; [by vm_compute | done].
Defined.

(** ** Stopping and starting NetworkManager *)

Lemma bind_ok {A B} (m : prog A) (f : A → prog B) t b t' :
  (x <- m ;; f x) t = (Ok b, t') →
  ∃ a t1, m t = (Ok a, t1) ∧ f a t1 = (Ok b, t').
Proof.
  simpl. destruct (m t) as [[a|e] t1]; [|done]. intros Hf. by exists a, t1.
Qed.

(** C10. The [nmcli device disconnect] calls and the stop of NetworkManager
    are only in the trace of a pass when the restart decision is true and
    [utils.nm_running()] is: with a true decision and a daemon that is not
    running none of them runs. The start does not depend on it: a pass with a
    true decision that returns has started NetworkManager. *)
Theorem network_manager_is_stopped_only_if_running
  (h : host) (run_generate sync exit_on_error : bool)
  (r : result unit) (t : list action) :
  command_apply h run_generate sync exit_on_error [] = (r, t) →
  (∀ a, a ∈ t → nm_stop_action a = true →
        restart_nm h = true ∧ nm_running h = true)
  ∧ (restart_nm h = true → nm_running h = false →
     ∀ a, a ∈ t → nm_stop_action a = false)
  ∧ (restart_nm h = true → r = Ok tt →
     SystemctlNetworkManager "start" sync ∈ t).
Proof.
  intros Hrun.
  assert (∀ a, a ∈ t → permitted h a) as Hpermitted.
  { destruct (orderly_command_apply h sync run_generate exit_on_error [])
      as (r' & added & Hrun' & Hphases & _).
    rewrite Hrun in Hrun'. simpl in Hrun'. simplify_eq.
    intros a Ha. rewrite Forall_forall in Hphases. by apply Hphases. }
  split; [|split].
  - intros a Ha. by apply Hpermitted.
  - intros Hrestart Hstopped a Ha.
    destruct (nm_stop_action a) eqn:Hstop; [|done].
    destruct (Hpermitted a Ha Hstop). congruence.
  - intros Hrestart ->. unfold command_apply in Hrun.
    apply bind_ok in Hrun as (? & ? & _ & Hrun).
    unfold reconcile in Hrun. fold (restart_nm h) in Hrun.
    rewrite Hrestart in Hrun.
    do 8 (apply bind_ok in Hrun as (? & ? & _ & Hrun)).
    simpl in Hrun. unfold invoke in Hrun. simplify_eq.
    apply elem_of_app. right. by left.
Qed.

Lemma network_manager_is_stopped_only_if_running_witness :
  ∃ t, command_apply (lab 0 false (λ _, None)) true false true [] = (Ok tt, t)
       ∧ (∀ a, a ∈ t → nm_stop_action a = false)
       ∧ SystemctlNetworkManager "start" false ∈ t.
Proof.
  destruct (network_manager_is_stopped_only_if_running
              (lab 0 false (λ _, None)) true false true (Ok tt)
              [RunGenerator;
               CheckCall ["udevadm"; "test-builtin"; "net_setup_link";
                          "/sys/class/net/eth1"];
               CheckCall ["udevadm"; "test-builtin"; "net_setup_link";
                          "/sys/class/net/eth2"];
               ip_link_set_name "eth1" "lan0";
               ip_link_set_name "eth2" "wan0";
               udevadm_settle;
               SystemctlNetworkManager "start" false])
    as (_ & Hnever & Hstart); [by vm_compute|].
  eexists. split; [by vm_compute|]. split.
  - by apply Hnever.
  - by apply Hstart.
Defined.

(** With NetworkManager running, every device is disconnected and the
    daemon stopped before the link rules are triggered. *)
Example running_network_manager_is_stopped :
  command_apply (lab 0 true (λ _, None)) true false true []
  = (Ok tt,
     [RunGenerator;
      Nmcli ["device"; "disconnect"; "eth1"];
      Nmcli ["device"; "disconnect"; "eth2"];
      SystemctlNetworkManager "stop" false;
      CheckCall ["udevadm"; "test-builtin"; "net_setup_link";
                 "/sys/class/net/eth1"];
      CheckCall ["udevadm"; "test-builtin"; "net_setup_link";
                 "/sys/class/net/eth2"];
      ip_link_set_name "eth1" "lan0";
      ip_link_set_name "eth2" "wan0";
      udevadm_settle;
      SystemctlNetworkManager "start" false]).
Proof. by vm_compute. Qed.

(** ** Running the planner again after its renames *)

(** The first run renames [eth0] to [wan0]; the second run, on the renamed
    interface, asks to rename [wan0] to [lan0]. *)
Lemma second_run_renames_again :
  process_link_changes (names [nic "eth0"]) two_targets (links_of [nic "eth0"])
  = Ok [("eth0", VDict [("name", VStr "wan0")])]
  ∧ apply_changes [("eth0", VDict [("name", VStr "wan0")])] [nic "eth0"]
    = Some [nic "wan0"]
  ∧ process_link_changes (names [nic "wan0"]) two_targets
      (links_of [nic "wan0"])
    = Ok [("wan0", VDict [("name", VStr "lan0")])]
  ∧ process_link_changes (names [nic "wan0"]) two_targets
      (links_of [nic "wan0"])
    ≠ Ok [].
Proof.
  split; [by vm_compute|]. split; [by vm_compute|]. split; [by vm_compute|].
  vm_compute. discriminate.
Qed.

Lemma elem_of_names devs name :
  name ∈ names devs ↔ ∃ d, d ∈ devs ∧ dev_name d = name.
Proof.
  unfold names. rewrite list_elem_of_In, in_map_iff. split.
  - intros (d & Hname & Hin). exists d. by rewrite list_elem_of_In.
  - intros (d & Hin & Hname). exists d. by rewrite <-list_elem_of_In.
Qed.

Lemma find_device_distinct devs d :
  distinct (names devs) = true → d ∈ devs →
  find_device devs (dev_name d) = Some d.
Proof.
  induction devs as [|x rest IH]; simpl.
  - intros _ Hin. by apply elem_of_nil in Hin.
  - intros [Hfresh Hrest]%andb_true_iff Hin.
    apply elem_of_cons in Hin as [->|Hin].
    + by rewrite String.eqb_refl.
    + destruct (String.eqb_spec (dev_name x) (dev_name d)) as [Heq|Hne];
        [|by apply IH].
      apply negb_true_iff in Hfresh.
      assert (existsb (String.eqb (dev_name x)) (names rest) = true) as Hdup.
      { apply existsb_exists. exists (dev_name d). split.
        - apply list_elem_of_In, elem_of_names. by exists d.
        - by apply String.eqb_eq. }
      congruence.
Qed.

(** The decision for an interface depends on the host through the three
    reads for that interface only. *)
Lemma planned_ext phys composite_interfaces m sys sys' i :
  operstate sys i = operstate sys' i →
  driver_name sys i = driver_name sys' i →
  link_addr sys i = link_addr sys' i →
  planned phys composite_interfaces m sys i
  = planned phys composite_interfaces m sys' i.
Proof. unfold planned. by intros -> -> ->. Qed.

(** Whether the membership test raises does not depend on the name. *)
Lemma composite_has_member_returns composite i j :
  composite_has_member composite i = Ok false →
  ∃ b, composite_has_member composite j = Ok b.
Proof.
  induction composite as [|[id settings] items IH]; simpl.
  - by exists false.
  - destruct (py_get settings "interfaces" (VList [])) as [members|];
      simpl; [|done].
    destruct (py_iter members) as [ifaces|]; simpl; [|done].
    destruct (has_member ifaces i); [done|]. intros Hrest.
    destruct (has_member ifaces j); [by exists true | by apply IH].
Qed.

Lemma is_composite_member_returns composites i j :
  is_composite_member composites i = Ok false →
  ∃ b, is_composite_member composites j = Ok b.
Proof.
  induction composites as [|c cs IH]; simpl.
  - by exists false.
  - destruct (composite_has_member c i) as [[]|] eqn:Hc; simpl; try done.
    intros Hrest.
    destruct (composite_has_member_returns c i j Hc) as (b & ->). simpl.
    destruct b; [by exists true | by apply IH].
Qed.

(** Every name in the tables is a truthy [set-name]. *)
Lemma set_if_truthy_Forall (P : value → Prop) table key newname table' :
  set_if_truthy table key newname = Ok table' →
  P newname → map_Forall (λ _, P) table → map_Forall (λ _, P) table'.
Proof.
  unfold set_if_truthy. destruct (truthy key); [|by intros [= <-]].
  destruct key; try done. intros [= <-] Hnew Htable.
  by apply map_Forall_insert_2.
Qed.

Lemma match_tables_truthy phys m :
  match_tables phys = Ok m →
  map_Forall (λ _ v, truthy v = true) (by_driver m)
  ∧ map_Forall (λ _ v, truthy v = true) (by_mac m).
Proof.
  apply (for_each_invariant match_rule (λ m,
    map_Forall (λ _ v, truthy v = true) (by_driver m)
    ∧ map_Forall (λ _ v, truthy v = true) (by_mac m))).
  - intros m0 item m1 _ [Hd Hm]
      [->|(newname & mt & Hactive & Hbd & Hbm)]%match_rule_inv; [done|].
    destruct Hactive as (s & _ & _ & _ & Htruthy & _).
    split; eapply set_if_truthy_Forall; eauto.
  - split; apply map_Forall_empty.
Qed.

Lemma hit_truthy table key interface v :
  map_Forall (λ _ v, truthy v = true) table →
  hit table key interface = Some v → truthy v = true.
Proof.
  intros Htable. unfold hit. destruct key as [k|]; [|done].
  destruct (table !! k) as [w|] eqn:Hk; [|done].
  destruct (value_eq_str w interface); [done|]. intros [= <-].
  by apply (map_Forall_lookup_1 _ _ _ _ Htable Hk).
Qed.

(** Once an interface carries the name the tables agree on, no table asks
    for another one. *)
Lemma target_settled m d interface new_name mac :
  agree m d = true → dev_addr d = Ok mac →
  target m (dev_driver d) mac interface = Some (VStr new_name) →
  target m (dev_driver d) mac new_name = None.
Proof.
  unfold agree, target, hit. intros Hagree Haddr. rewrite Haddr in Hagree.
  destruct (dev_driver d) as [k|], mac as [a|]; simpl.
  - destruct (by_driver m !! k) as [A|], (by_mac m !! a) as [B|]; try done.
    + destruct B as [|b| |]; try done.
      apply value_eq_str_true in Hagree as ->. simpl.
      destruct (String.eqb_spec b interface); [done|].
      intros [= ->]. by rewrite String.eqb_refl.
    + destruct (value_eq_str A interface); [done|].
      intros [= ->]. simpl. by rewrite String.eqb_refl.
    + destruct (value_eq_str B interface); [done|].
      intros [= ->]. simpl. by rewrite String.eqb_refl.
  - destruct (by_driver m !! k) as [A|]; [|done].
    destruct (value_eq_str A interface); [done|].
    intros [= ->]. simpl. by rewrite String.eqb_refl.
  - destruct (by_mac m !! a) as [B|]; [|done].
    destruct (value_eq_str B interface); [done|].
    intros [= ->]. simpl. by rewrite String.eqb_refl.
  - done.
Qed.

Lemma links_of_reads devs d :
  distinct (names devs) = true → d ∈ devs →
  operstate (links_of devs) (dev_name d) = dev_operstate d
  ∧ driver_name (links_of devs) (dev_name d) = dev_driver d
  ∧ link_addr (links_of devs) (dev_name d) = dev_addr d.
Proof.
  intros Hdistinct Hin. simpl.
  by rewrite (find_device_distinct devs d Hdistinct Hin).
Qed.

Lemma Forall2_elem_of_right {A B} (R : A → B → Prop) l k y :
  Forall2 R l k → y ∈ k → ∃ x, x ∈ l ∧ R x y.
Proof.
  induction 1 as [|x y' l k Hxy _ IH]; intros Hin.
  - by apply elem_of_nil in Hin.
  - apply elem_of_cons in Hin as [->|Hin].
    + exists x. split; [by left | done].
    + destruct (IH Hin) as (x' & ? & ?). exists x'. split; [by right | done].
Qed.

Lemma planned_truthy phys composite_interfaces m sys i v :
  map_Forall (λ _ v, truthy v = true) (by_driver m) →
  map_Forall (λ _ v, truthy v = true) (by_mac m) →
  planned phys composite_interfaces m sys i = Ok (Some v) → truthy v = true.
Proof.
  intros Hd Hm. unfold planned.
  destruct (is_composite_member _ i) as [[]|];
    destruct (Dict.contains _ i); simpl; try done.
  destruct (operstate sys i); [|done].
  destruct (negb _); [done|].
  destruct (link_addr sys i) as [mac|]; simpl; [|done].
  unfold target. intros [= Htarget].
  destruct (hit (by_mac m) mac i) as [w|] eqn:Hw.
  - simplify_eq. by apply (hit_truthy (by_mac m) mac i v Hm).
  - by apply (hit_truthy (by_driver m) (driver_name sys i) i v Hd).
Qed.

(** C5, as the code has it. On the interfaces as the first run's renames
    leave them (each renamed interface carries its new name, names are
    still distinct, nothing else has changed), a second run of
    [process_link_changes] returns an empty changeset, provided the
    by-driver and the by-mac table do not ask for two different names for
    one interface. *)
Theorem second_run_is_empty
  (cfg : config_manager) (devs devs' : list device) (m : matches)
  (ch : list (string * value)) :
  distinct (names devs) = true →
  match_tables (physical_interfaces cfg) = Ok m →
  forallb (agree m) devs = true →
  process_link_changes (names devs) cfg (links_of devs) = Ok ch →
  apply_changes ch devs = Some devs' →
  process_link_changes (names devs') cfg (links_of devs') = Ok [].
Proof.
  intros Hdistinct Hm Hagree Hrun Happly.
  destruct (process_link_changes_get _ _ _ _ Hrun) as (m' & Hm' & Hch).
  assert (m' = m) as -> by congruence. clear Hm'.
  destruct (match_tables_truthy _ _ Hm) as [Htd Htm].
  unfold apply_changes in Happly.
  destruct (mapM (renamed ch) devs) as [l|] eqn:HmapM; [|done].
  destruct (distinct (names l)) eqn:Hdistinct'; [|done]. simplify_eq.
  apply mapM_Some in HmapM.
  unfold process_link_changes. rewrite Hm. simpl. apply plan_nothing.
  intros i' (d' & Hd' & <-)%elem_of_names.
  destruct (Forall2_elem_of_right _ _ _ _ HmapM Hd') as (d & Hd & Hren).
  destruct (links_of_reads devs d Hdistinct Hd) as (Hstate & Hdrv & Haddr).
  destruct (links_of_reads devs' d' Hdistinct' Hd') as (Hstate' & Hdrv' & Haddr').
  assert (dev_name d ∈ names devs) as Hname
    by (apply elem_of_names; by exists d).
  destruct (proj1 (Hch (dev_name d)) Hname) as (p & Hp & Hget).
  unfold renamed in Hren. rewrite Hget in Hren.
  destruct p as [v|]; simpl in Hren.
  - rewrite (planned_truthy _ _ _ _ _ _ Htd Htm Hp) in Hren.
    destruct v as [|new_name| |]; try done. simplify_eq.
    cbn [dev_name dev_operstate dev_driver dev_addr] in *.
    unfold planned in Hp. rewrite Hstate, Hdrv, Haddr in Hp.
    unfold planned. rewrite Hstate', Hdrv', Haddr'.
    destruct (is_composite_member _ (dev_name d)) as [[]|] eqn:Hmember;
      destruct (Dict.contains _ (dev_name d)); simpl in Hp; try done.
    destruct (is_composite_member_returns _ _ new_name Hmember) as (b & ->).
    destruct (Dict.contains _ new_name); simpl; [|done].
    destruct b; [done|].
    destruct (dev_operstate d) as [text|]; [|done].
    destruct (negb _); [done|].
    destruct (dev_addr d) as [mac|] eqn:Hmac; simpl in *; [|done].
    simplify_eq. f_equal.
    apply (target_settled m d (dev_name d) new_name mac); try done.
    rewrite forallb_forall in Hagree. by apply Hagree, list_elem_of_In.
  - simplify_eq. rewrite <-Hp. apply planned_ext; congruence.
Qed.

Lemma second_run_is_empty_witness :
  process_link_changes (names [nic "eth0"]) one_target (links_of [nic "eth0"])
  = Ok [("eth0", VDict [("name", VStr "lan0")])]
  ∧ process_link_changes (names [nic "lan0"]) one_target
      (links_of [nic "lan0"])
    = Ok [].
Proof.
  split; [by vm_compute|].
  eapply (second_run_is_empty one_target [nic "eth0"] [nic "lan0"] _
            [("eth0", VDict [("name", VStr "lan0")])]).
  - reflexivity.
  - reflexivity.
  - by vm_compute.
  - by vm_compute.
  - by vm_compute.
Defined.


(** * Further properties of the planner *)

Lemma target_inv m driver macaddress interface v :
  target m driver macaddress interface = Some v →
  v ≠ VStr interface
  ∧ ((∃ key, macaddress = Some key ∧ by_mac m !! key = Some v)
     ∨ (∃ key, driver = Some key ∧ by_driver m !! key = Some v)).
Proof.
  assert (∀ table key, hit table key interface = Some v →
            v ≠ VStr interface ∧ ∃ k, key = Some k ∧ table !! k = Some v)
    as Hhit.
  { intros table key. unfold hit. destruct key as [k|]; [|done].
    destruct (table !! k) as [w|] eqn:Hk; [|done].
    destruct (value_eq_str w interface) eqn:Hw; [done|].
    intros [= <-]. split; [|by exists k].
    intros Heq. apply value_eq_str_true in Heq. congruence. }
  unfold target.
  destruct (hit (by_mac m) macaddress interface) as [w|] eqn:Hmac.
  - intros [= <-]. destruct (Hhit _ _ Hmac) as [Hne Hk]. split; [done | by left].
  - intros Hdrv. destruct (Hhit _ _ Hdrv) as [Hne Hk]. split; [done | by right].
Qed.

Lemma planned_inv phys composite_interfaces m sys i v :
  planned phys composite_interfaces m sys i = Ok (Some v) →
  Dict.contains phys i = true
  ∧ is_composite_member composite_interfaces i = Ok false
  ∧ ∃ text mac,
      operstate sys i = Some text ∧ strip text = "down"
      ∧ link_addr sys i = Ok mac
      ∧ target m (driver_name sys i) mac i = Some v.
Proof.
  unfold planned.
  destruct (is_composite_member _ i) as [[]|];
    destruct (Dict.contains _ i); simpl; try done.
  destruct (operstate sys i) as [text|]; [|done].
  destruct (String.eqb_spec (strip text) "down"); simpl; [|done].
  destruct (link_addr sys i) as [mac|]; simpl; [|done].
  intros [= Htarget]. repeat split. by exists text, mac.
Qed.

Lemma planned_returns phys composite_interfaces m sys i :
  (∃ b, is_composite_member composite_interfaces i = Ok b) →
  (∀ text, Dict.contains phys i = true → operstate sys i = Some text →
           strip text = "down" → is_ok (link_addr sys i) = true) →
  ∃ p, planned phys composite_interfaces m sys i = Ok p.
Proof.
  intros (b & Hb) Hlink. unfold planned. rewrite Hb.
  destruct (Dict.contains phys i); simpl; [|by eexists].
  destruct b; [by eexists|].
  destruct (operstate sys i) as [text|]; [|by eexists].
  destruct (String.eqb_spec (strip text) "down"); simpl; [|by eexists].
  specialize (Hlink text eq_refl eq_refl e).
  destruct (link_addr sys i); [by eexists | done].
Qed.

Lemma plan_returns phys composite_interfaces m sys interfaces changes :
  (∀ i, i ∈ interfaces →
        ∃ p, planned phys composite_interfaces m sys i = Ok p) →
  ∃ ch, for_each (link_change phys composite_interfaces m sys)
          interfaces changes = Ok ch.
Proof.
  revert changes. induction interfaces as [|a l IH]; intros changes Hall; simpl.
  - by eexists.
  - rewrite link_change_planned.
    destruct (Hall a) as (p & ->); [by left|]. simpl.
    apply IH. intros i Hi. apply Hall. by right.
Qed.

(** X1. Every entry of the changeset is for an interface of the list that
    is declared physical, member of no composite and down, and has the form
    [{'name': new_name}] with a truthy [new_name] other than the current
    name, taken from the by-mac table at the interface's address or from the
    by-driver table at its driver. *)
Theorem changeset_entries_are_eligible
  (interfaces : list string) (cfg : config_manager) (sys : links)
  (ch : list (string * value)) (i : string) (change : value) :
  process_link_changes interfaces cfg sys = Ok ch →
  Dict.get ch i = Some change →
  i ∈ interfaces
  ∧ Dict.contains (physical_interfaces cfg) i = true
  ∧ is_composite_member [bridges cfg; bonds cfg] i = Ok false
  ∧ (∃ text, operstate sys i = Some text ∧ strip text = "down")
  ∧ ∃ m new_name,
      match_tables (physical_interfaces cfg) = Ok m
      ∧ change = VDict [("name", new_name)]
      ∧ new_name ≠ VStr i ∧ truthy new_name = true
      ∧ ((∃ key, link_addr sys i = Ok (Some key)
                 ∧ by_mac m !! key = Some new_name)
         ∨ (∃ key, driver_name sys i = Some key
                   ∧ by_driver m !! key = Some new_name)).
Proof.
  intros Hrun Hget.
  destruct (process_link_changes_get _ _ _ _ Hrun) as (m & Hm & Hch).
  destruct (match_tables_truthy _ _ Hm) as [Htd Htm].
  destruct (decide (i ∈ interfaces)) as [Hin|Hni];
    [|by rewrite (proj2 (Hch i) Hni) in Hget].
  destruct (proj1 (Hch i) Hin) as (p & Hp & Hi). rewrite Hget in Hi.
  destruct p as [v|]; [|done]. simpl in Hi. simplify_eq.
  pose proof (planned_truthy _ _ _ _ _ _ Htd Htm Hp) as Htruthy.
  destruct (planned_inv _ _ _ _ _ _ Hp)
    as (Hphys & Hmember & text & mac & Hstate & Hdown & Hmac & Htarget).
  destruct (target_inv _ _ _ _ _ Htarget) as [Hne Hfrom].
  split; [done|]. split; [done|]. split; [done|].
  split; [by exists text|]. exists m, v. repeat split; try done.
  destruct Hfrom as [(key & -> & Hkey)|(key & Hdrv & Hkey)].
  - left. by exists key.
  - right. by exists key.
Qed.

Lemma changeset_entries_are_eligible_witness :
  "eth1" ∈ ["lo"; "eth0"; "eth1"; "eth2"]
  ∧ Dict.contains (physical_interfaces three_declared) "eth1" = true
  ∧ ∃ text, operstate three_nics "eth1" = Some text ∧ strip text = "down".
Proof.
  destruct (changeset_entries_are_eligible ["lo"; "eth0"; "eth1"; "eth2"]
              three_declared three_nics
              [("eth1", VDict [("name", VStr "lan0")]);
               ("eth2", VDict [("name", VStr "wan0")])]
              "eth1" (VDict [("name", VStr "lan0")]))
    as (Hin & Hphys & _ & Hdown & _).
  - by vm_compute.
  - reflexivity.
  - done.
Defined.

(** X2. A by-driver match alone renames: for an interface that reaches the
    lookups, whose driver maps to [A] other than its current name and whose
    address either has no by-mac entry or maps to the current name, the
    changeset holds [A]. A by-mac entry equal to the current name does not
    cancel the by-driver rename. *)
Theorem driver_match_alone_renames
  (interfaces : list string) (cfg : config_manager) (sys : links)
  (m : matches) (ch : list (string * value)) (interface text driver : string)
  (mac : option string) (A : value) :
  match_tables (physical_interfaces cfg) = Ok m →
  interface ∈ interfaces →
  Dict.contains (physical_interfaces cfg) interface = true →
  is_composite_member [bridges cfg; bonds cfg] interface = Ok false →
  operstate sys interface = Some text →
  strip text = "down" →
  driver_name sys interface = Some driver →
  link_addr sys interface = Ok mac →
  by_driver m !! driver = Some A →
  A ≠ VStr interface →
  (∀ key B, mac = Some key → by_mac m !! key = Some B → B = VStr interface) →
  process_link_changes interfaces cfg sys = Ok ch →
  Dict.get ch interface = Some (VDict [("name", A)]).
Proof.
  intros Hm Hin Hphy Hcomp Hstate Hdown Hdrv Hmac HA Hne Hnomac Hrun.
  destruct (process_link_changes_get _ _ _ _ Hrun) as (m' & Hm' & Hget).
  assert (m' = m) as -> by congruence.
  destruct (proj1 (Hget interface) Hin) as (p & Hp & ->).
  unfold planned in Hp. rewrite Hphy, Hcomp, Hstate, Hdown in Hp.
  simpl in Hp. rewrite Hmac, Hdrv in Hp. simpl in Hp. simplify_eq.
  unfold target, hit. rewrite HA.
  assert (value_eq_str A interface = false) as ->.
  { destruct (value_eq_str A interface) eqn:Heq; [|done].
    by apply value_eq_str_true in Heq. }
  destruct mac as [key|]; [|done].
  destruct (by_mac m !! key) as [B|] eqn:HB; [|done].
  rewrite (Hnomac key B eq_refl HB). simpl. by rewrite String.eqb_refl.
Qed.

Lemma driver_match_alone_renames_witness :
  ∃ ch, process_link_changes ["wan0"] two_targets (links_of [nic "wan0"]) = Ok ch
        ∧ Dict.get ch "wan0" = Some (VDict [("name", VStr "lan0")]).
Proof.
  exists [("wan0", VDict [("name", VStr "lan0")])]. split; [by vm_compute|].
  eapply (driver_match_alone_renames ["wan0"] two_targets
            (links_of [nic "wan0"]) _ _ "wan0" ("down" +:+ newline) "e1000"
            (Some "aa:bb:cc:dd:ee:ff") (VStr "lan0"));
    try (by vm_compute).
  - by left.
  - intros key B [= <-]. vm_compute. by intros [= <-].
Defined.

(** X3. The changeset does not depend on the order of the interface list
    nor on repetitions in it: two lists with the same elements give
    changesets that agree on every key, and the second run returns when the
    first does. *)
Theorem changeset_ignores_order
  (interfaces interfaces' : list string) (cfg : config_manager) (sys : links)
  (ch : list (string * value)) :
  (∀ i, i ∈ interfaces ↔ i ∈ interfaces') →
  process_link_changes interfaces cfg sys = Ok ch →
  ∃ ch', process_link_changes interfaces' cfg sys = Ok ch'
         ∧ ∀ i, Dict.get ch' i = Dict.get ch i.
Proof.
  intros Hsame Hrun.
  destruct (process_link_changes_get _ _ _ _ Hrun) as (m & Hm & Hch).
  destruct (plan_returns (physical_interfaces cfg) [bridges cfg; bonds cfg]
              m sys interfaces' []) as (ch' & Hrun').
  { intros i Hi. apply Hsame in Hi.
    destruct (proj1 (Hch i) Hi) as (p & Hp & _). by exists p. }
  assert (process_link_changes interfaces' cfg sys = Ok ch') as Hplc.
  { unfold process_link_changes. by rewrite Hm. }
  exists ch'. split; [done|]. intros i.
  destruct (process_link_changes_get _ _ _ _ Hplc) as (m' & Hm' & Hch').
  assert (m' = m) as -> by congruence.
  destruct (decide (i ∈ interfaces)) as [Hin|Hni].
  - destruct (proj1 (Hch i) Hin) as (p & Hp & ->).
    destruct (proj1 (Hch' i) (proj1 (Hsame i) Hin)) as (p' & Hp' & ->).
    congruence.
  - rewrite (proj2 (Hch i) Hni). apply Hch'. by rewrite <-Hsame.
Qed.

Lemma changeset_ignores_order_witness :
  ∃ ch', process_link_changes ["eth2"; "eth1"; "eth2"; "eth0"; "lo"]
           three_declared three_nics = Ok ch'
         ∧ Dict.get ch' "eth1" = Some (VDict [("name", VStr "lan0")]).
Proof.
  destruct (changeset_ignores_order ["lo"; "eth0"; "eth1"; "eth2"]
              ["eth2"; "eth1"; "eth2"; "eth0"; "lo"] three_declared three_nics
              [("eth1", VDict [("name", VStr "lan0")]);
               ("eth2", VDict [("name", VStr "wan0")])])
    as (ch' & Hrun' & Hsame).
  - intros i. rewrite !elem_of_cons, !elem_of_nil. tauto.
  - by vm_compute.
  - exists ch'. split; [done|]. by rewrite Hsame.
Defined.

(** X4. [process_link_changes] returns a changeset whenever no entry of the
    configuration makes the table builder raise, the bridges and bonds are
    mappings with sequences of members, and the link-layer address can be
    read for every listed interface that is declared physical and down. An
    interface whose operstate cannot be read does not make it raise. *)
Theorem process_link_changes_returns
  (interfaces : list string) (cfg : config_manager) (sys : links) :
  forallb rule_ok (physical_interfaces cfg) = true →
  forallb well_formed_composite [bridges cfg; bonds cfg] = true →
  (∀ i text, i ∈ interfaces →
     Dict.contains (physical_interfaces cfg) i = true →
     operstate sys i = Some text → strip text = "down" →
     is_ok (link_addr sys i) = true) →
  ∃ ch, process_link_changes interfaces cfg sys = Ok ch.
Proof.
  intros Hrules Hcomposites Hlinks. unfold process_link_changes.
  destruct (for_each_match_rule_ok _ no_matches Hrules) as (m & Hm).
  unfold match_tables. rewrite Hm. simpl.
  apply plan_returns. intros i Hi. apply planned_returns.
  - destruct (is_composite_member_complete _ i Hcomposites) as (b & Hb & _).
    by exists b.
  - intros text. by apply Hlinks.
Qed.

Lemma process_link_changes_returns_witness :
  ∃ ch, process_link_changes ["lo"; "eth0"; "eth1"; "eth2"] three_declared
          {| operstate := λ name,
               if String.eqb name "eth1" then None
               else operstate three_nics name;
             driver_name := driver_name three_nics;
             link_addr := λ name,
               if String.eqb name "eth2" then link_addr three_nics name
               else Raise KeyError |}
        = Ok ch.
Proof.
  apply process_link_changes_returns.
  - reflexivity.
  - reflexivity.
  - intros i text Hin Hphys Hstate Hdown.
    repeat (apply elem_of_cons in Hin as [->|Hin]);
      [..|by apply elem_of_nil in Hin].
    all: try (by vm_compute in Hphys).
    all: vm_compute in Hstate; simplify_eq.
    all: try (by vm_compute in Hdown).
    all: by vm_compute.
Defined.

(** X5. A failure to read the link-layer address of an interface that is
    declared physical, member of no composite and down is not handled: it
    ends the planner with that exception, whatever the changes planned for
    the interfaces before it and whatever comes after it in the list. *)
Theorem unreadable_address_ends_the_planner
  (pre post : list string) (cfg : config_manager) (sys : links)
  (ch : list (string * value)) (interface text : string) (e : exn) :
  process_link_changes pre cfg sys = Ok ch →
  Dict.contains (physical_interfaces cfg) interface = true →
  is_composite_member [bridges cfg; bonds cfg] interface = Ok false →
  operstate sys interface = Some text →
  strip text = "down" →
  link_addr sys interface = Raise e →
  process_link_changes (pre ++ interface :: post) cfg sys = Raise e.
Proof.
  intros Hpre Hphys Hmember Hstate Hdown Hlink.
  unfold process_link_changes in *.
  destruct (match_tables (physical_interfaces cfg)) as [m|]; [|done].
  cbn [bind result_monad] in *.
  rewrite for_each_app, Hpre. cbn [bind result_monad for_each].
  unfold link_change. rewrite Hphys, Hmember, Hstate, Hdown.
  cbn [bind result_monad negb]. rewrite String.eqb_refl.
  cbn [negb]. by rewrite Hlink.
Qed.

Lemma unreadable_address_ends_the_planner_witness :
  process_link_changes ["eth1"; "eth2"; "eth0"] three_declared
    {| operstate := operstate three_nics;
       driver_name := driver_name three_nics;
       link_addr := λ name,
         if String.eqb name "eth2" then Raise KeyError
         else link_addr three_nics name |}
  = Raise KeyError.
Proof.
  apply (unreadable_address_ends_the_planner ["eth1"] ["eth0"] three_declared _
           [("eth1", VDict [("name", VStr "lan0")])] "eth2"
           ("down" +:+ newline) KeyError); by vm_compute.
Defined.

(** * Further properties of the table builder *)

Lemma set_if_truthy_lookup_inv table key newname table' k v :
  set_if_truthy table key newname = Ok table' →
  table' !! k = Some v →
  (key = VStr k ∧ k ≠ "" ∧ v = newname) ∨ table !! k = Some v.
Proof.
  unfold set_if_truthy. destruct (truthy key) eqn:Ht; [|intros [= <-]; by right].
  destruct key as [|s| |]; try done. intros [= <-].
  destruct (decide (s = k)) as [->|Hne].
  - rewrite lookup_insert_eq. intros [= <-]. left. split; [done|].
    split; [|done]. intros ->. done.
  - rewrite lookup_insert_ne by done. by right.
Qed.

Lemma set_if_truthy_raise_indep table table' key newname e :
  set_if_truthy table key newname = Raise e →
  set_if_truthy table' key newname = Raise e.
Proof. unfold set_if_truthy. by destruct (truthy key), key. Qed.

Lemma match_rule_raise_indep m m' item e :
  match_rule m item = Raise e → match_rule m' item = Raise e.
Proof.
  destruct item as [phy settings]. unfold match_rule.
  destruct (truthy settings); simpl; [|done].
  destruct (String.eqb phy "renderer"); [done|].
  destruct (py_get settings "set-name" VNone) as [newname|]; simpl; [|done].
  destruct (truthy newname); simpl; [|done].
  destruct (py_get settings "match" VNone) as [match_|]; simpl; [|done].
  destruct (truthy match_); simpl; [|done].
  destruct (py_get match_ "driver" VNone) as [driver|]; simpl; [|done].
  destruct (py_get match_ "macaddress" VNone) as [mac|]; simpl; [|done].
  destruct (set_if_truthy (by_driver m) driver newname) as [bd|] eqn:Hbd; simpl.
  - pose proof (set_if_truthy_ok_indep (by_driver m) (by_driver m')
                  driver newname) as Hok.
    rewrite Hbd in Hok.
    destruct (set_if_truthy (by_driver m') driver newname); [|done]. simpl.
    destruct (set_if_truthy (by_mac m) mac newname) eqn:Hbm; simpl; [done|].
    intros [= <-].
    by rewrite (set_if_truthy_raise_indep _ (by_mac m') _ _ _ Hbm).
  - intros [= <-].
    by rewrite (set_if_truthy_raise_indep _ (by_driver m') _ _ _ Hbd).
Qed.

(** X6. The tables hold nothing but what the rules declare: every entry
    of the by-driver (by-mac) table is the [set-name] of some active rule of
    the configuration whose [match] has that driver (address). *)
Theorem tables_hold_declared_names
  (phys : list (string * value)) (m : matches) :
  match_tables phys = Ok m →
  (∀ key name, by_driver m !! key = Some name →
     ∃ item, item ∈ phys ∧ declares "driver" item key name)
  ∧ (∀ key name, by_mac m !! key = Some name →
       ∃ item, item ∈ phys ∧ declares "macaddress" item key name).
Proof.
  apply (for_each_invariant match_rule (λ m,
    (∀ key name, by_driver m !! key = Some name →
       ∃ item, item ∈ phys ∧ declares "driver" item key name)
    ∧ (∀ key name, by_mac m !! key = Some name →
         ∃ item, item ∈ phys ∧ declares "macaddress" item key name))).
  - intros m0 item m1 Hin [Hd Hm]
      [->|(newname & mt & Hactive & Hbd & Hbm)]%match_rule_inv; [done|].
    split; intros key name Hkey.
    + destruct (set_if_truthy_lookup_inv _ _ _ _ _ _ Hbd Hkey)
        as [(Hk & Hne & ->)|Hold]; [|by apply Hd].
      exists item. split; [done|]. exists mt. split; [done|].
      split; [by apply from_option_VStr | done].
    + destruct (set_if_truthy_lookup_inv _ _ _ _ _ _ Hbm Hkey)
        as [(Hk & Hne & ->)|Hold]; [|by apply Hm].
      exists item. split; [done|]. exists mt. split; [done|].
      split; [by apply from_option_VStr | done].
  - split; intros key name Hkey; simpl in Hkey; by rewrite lookup_empty in Hkey.
Qed.

Lemma tables_hold_declared_names_witness :
  ∃ item, item ∈ physical_interfaces three_declared
          ∧ declares "driver" item "e1000" (VStr "lan0").
Proof.
  destruct (tables_hold_declared_names (physical_interfaces three_declared)
              (Matches {["e1000" := VStr "lan0"]}
                       {["aa:bb:cc:dd:ee:ff" := VStr "wan0"]}))
    as [Hdriver _]; [by vm_compute|].
  apply Hdriver. by vm_compute.
Defined.

(** X7. The builder stops at the first entry that raises on its own, with
    that entry's exception, whatever the entries after it. *)
Theorem first_bad_rule_ends_the_builder
  (pre post : list (string * value)) (item : string * value) (e : exn) :
  forallb rule_ok pre = true →
  match_rule no_matches item = Raise e →
  match_tables (pre ++ item :: post) = Raise e.
Proof.
  intros Hpre Hitem. unfold match_tables. rewrite for_each_app.
  destruct (for_each_match_rule_ok pre no_matches Hpre) as (m & ->). simpl.
  by rewrite (match_rule_raise_indep no_matches m item e Hitem).
Qed.

Lemma first_bad_rule_ends_the_builder_witness :
  match_tables [("eth0", rule "lan0" "driver" "e1000");
                ("eth1", VStr "dhcp");
                ("eth2", VList [VStr "x"])]
  = Raise AttributeError.
Proof.
  by apply (first_bad_rule_ends_the_builder
              [("eth0", rule "lan0" "driver" "e1000")]
              [("eth2", VList [VStr "x"])] ("eth1", VStr "dhcp")
              AttributeError).
Defined.



(** * Further properties of [is_composite_member] *)

Lemma composite_has_member_app items items' phy :
  composite_has_member (items ++ items') phy
  = (found <- composite_has_member items phy ;;
     if found : bool then Ok true else composite_has_member items' phy).
Proof.
  induction items as [|[id settings] items IH]; simpl; [done|].
  destruct (py_get settings "interfaces" (VList [])) as [members|]; simpl;
    [|done].
  destruct (py_iter members) as [ifaces|]; simpl; [|done].
  by destruct (has_member ifaces phy).
Qed.

Lemma is_composite_member_app composites composites' phy :
  is_composite_member (composites ++ composites') phy
  = (found <- is_composite_member composites phy ;;
     if found : bool then Ok true else is_composite_member composites' phy).
Proof.
  induction composites as [|c cs IH]; simpl; [done|].
  destruct (composite_has_member c phy) as [[]|]; simpl; try done.
Qed.

(** X9. The first entry that decides wins. With every bridge and bond
    entry before it examined without a hit: an entry that lists the name
    makes the answer true, whatever follows it; an entry whose settings are
    no mapping raises [AttributeError]; an entry whose [interfaces] is null
    raises [TypeError]. *)
Theorem first_composite_entry_decides
  (pre post : list (list (string * value)))
  (items_pre items_post : list (string * value)) (id : string)
  (settings : value) (phy : string) :
  is_composite_member pre phy = Ok false →
  composite_has_member items_pre phy = Ok false →
  (∀ d members,
     settings = VDict d →
     Dict.get d "interfaces" = Some (VList members) → VStr phy ∈ members →
     is_composite_member
       (pre ++ (items_pre ++ (id, settings) :: items_post) :: post) phy
     = Ok true)
  ∧ ((∀ d, settings ≠ VDict d) →
     is_composite_member
       (pre ++ (items_pre ++ (id, settings) :: items_post) :: post) phy
     = Raise AttributeError)
  ∧ (∀ d,
       settings = VDict d → Dict.get d "interfaces" = Some VNone →
       is_composite_member
         (pre ++ (items_pre ++ (id, settings) :: items_post) :: post) phy
       = Raise TypeError).
Proof.
  intros Hpre Hitems.
  assert (∀ r,
    (members <- py_get settings "interfaces" (VList []) ;;
     ifaces <- py_iter members ;;
     if has_member ifaces phy then Ok true
     else composite_has_member items_post phy) = r →
    (∀ b, r = Ok b → b = true) →
    is_composite_member
      (pre ++ (items_pre ++ (id, settings) :: items_post) :: post) phy = r)
    as Hentry.
  { intros r Hr Htrue. rewrite is_composite_member_app, Hpre. simpl.
    rewrite composite_has_member_app, Hitems. simpl. simpl in Hr. rewrite Hr.
    destruct r as [b|]; [|done]. by rewrite (Htrue b eq_refl). }
  split; [|split].
  - intros d members -> Hd Hin. apply Hentry; [|by intros b [= <-]].
    simpl. rewrite Hd. simpl.
    by rewrite (proj2 (has_member_true members phy) Hin).
  - intros Hnodict. apply Hentry; [|done].
    destruct settings as [| | |d]; try done. by destruct (Hnodict d).
  - intros d -> Hd. apply Hentry; [|done]. simpl. by rewrite Hd.
Qed.

Lemma first_composite_entry_decides_witness :
  is_composite_member
    [[("br0", VDict [("interfaces", VList [VStr "eth0"])])];
     [("bond0", VDict [("interfaces", VList [VStr "eth1"])]);
      ("bond1", VNone)]] "eth1"
  = Ok true
  ∧ is_composite_member
      [[("br0", VDict [("interfaces", VList [VStr "eth0"])])];
       [("bond0", VDict [("interfaces", VList [VStr "eth1"])]);
        ("bond1", VNone)]] "eth2"
    = Raise AttributeError.
Proof.
  split.
  - destruct (first_composite_entry_decides
                [[("br0", VDict [("interfaces", VList [VStr "eth0"])])]] []
                [] [("bond1", VNone)] "bond0"
                (VDict [("interfaces", VList [VStr "eth1"])]) "eth1")
      as (Hfound & _); [done | done |].
    apply (Hfound [("interfaces", VList [VStr "eth1"])] [VStr "eth1"]);
      [done | done | by left].
  - destruct (first_composite_entry_decides
                [[("br0", VDict [("interfaces", VList [VStr "eth0"])])]] []
                [("bond0", VDict [("interfaces", VList [VStr "eth1"])])] []
                "bond1" VNone "eth2")
      as (_ & Hraise & _); [done | done |].
    by apply Hraise.
Defined.

(** * Further properties of [command_apply] *)

(** X10. The commands of a pass run in phase order, whatever its outcome:
    the generator, then the stops and disconnects, then the link-rule
    triggers, then the renames, then the settle, then the starts. No rename
    runs before a stop or after the settle. *)
Theorem commands_run_in_phase_order
  (h : host) (run_generate sync exit_on_error : bool) :
  StronglySorted (λ a b, phase a ≤ phase b)
    (command_apply h run_generate sync exit_on_error []).2.
Proof.
  destruct (orderly_command_apply h sync run_generate exit_on_error [])
    as (r & added & -> & _ & Hsorted & _).
  done.
Qed.

(** X11. No failure of a command is handled but the [CalledProcessError]
    of [nmcli]: a command in the trace that ends with any other exception
    is the last command of the pass, and the pass ends with its exception.
    A failing stop, link-rule trigger or settle leaves the backends
    unstarted. *)
Theorem fatal_command_ends_the_pass
  (h : host) (run_generate sync exit_on_error : bool) (a : action) :
  a ∈ (command_apply h run_generate sync exit_on_error []).2 →
  fatal h a = true →
  ∃ e before,
    raises h a = Some e
    ∧ command_apply h run_generate sync exit_on_error []
      = (Raise e, before ++ [a])
    ∧ Forall (λ b, fatal h b = false) before.
Proof.
  destruct (orderly_command_apply h sync run_generate exit_on_error [])
    as (r & added & -> & _ & _ & Hout).
  simpl. intros Hin Hfatal.
  assert (∀ l, Forall (λ b, fatal h b = false) l → a ∉ l) as Hquiet.
  { intros l Hl Ha. rewrite Forall_forall in Hl.
    specialize (Hl a Ha). congruence. }
  destruct r as [[]|e]; simpl in Hout.
  { by destruct (Hquiet added). }
  destruct Hout as [Hall|(before & a' & -> & Hbefore & Ha' & He')].
  { by destruct (Hquiet added). }
  apply elem_of_app in Hin as [Hin|Hin]; [by destruct (Hquiet before)|].
  apply list_elem_of_singleton in Hin. subst a'.
  by exists e, before.
Qed.

Lemma fatal_command_ends_the_pass_witness :
  ∃ before,
    command_apply (lab 0 true settle_fails) true false true []
    = (Raise CalledProcessError, before ++ [udevadm_settle])
    ∧ SystemctlNetworkManager "stop" false ∈ before
    ∧ (SystemctlNetworkManager "start" false ∉ before).
Proof.
  destruct (fatal_command_ends_the_pass (lab 0 true settle_fails)
              true false true udevadm_settle)
    as (e & before & He & Hrun & _).
  - vm_compute. do 8 right. left.
  - reflexivity.
  - vm_compute in He. simplify_eq. exists before. split; [done|].
    vm_compute in Hrun. simplify_eq.
    assert (before
            = [RunGenerator; nmcli_disconnect "eth1"; nmcli_disconnect "eth2";
               SystemctlNetworkManager "stop" false;
               net_setup_link "eth1"; net_setup_link "eth2";
               ip_link_set_name "eth1" "lan0";
               ip_link_set_name "eth2" "wan0"]) as ->.
    { apply (app_inj_tail before _ udevadm_settle udevadm_settle).
      by vm_compute. }
    split; [do 3 right; left|]. intros Hin. not_in_trace Hin.
Defined.

(** X12. The generator runs first and once when generation is asked for,
    and never when it is skipped. *)
Theorem generator_runs_first_or_never
  (h : host) (run_generate sync exit_on_error : bool) :
  if run_generate
  then ∃ rest,
         (command_apply h run_generate sync exit_on_error []).2
         = RunGenerator :: rest
         ∧ RunGenerator ∉ rest
  else RunGenerator ∉ (command_apply h run_generate sync exit_on_error []).2.
Proof.
  assert (∀ t, ∃ added,
    (reconcile h sync t).2 = t ++ added ∧ RunGenerator ∉ added) as Hrest.
  { intros t. destruct (orderly_reconcile h sync t)
      as (r & added & -> & Hphases & _).
    exists added. split; [done|]. intros Hin.
    rewrite Forall_forall in Hphases.
    destruct (Hphases _ Hin) as [[Hlo _] _]. simpl in Hlo. lia. }
  unfold command_apply, generate, call_generator.
  destruct run_generate; simpl.
  - destruct (Z.eqb (generator_status h) 0); simpl.
    + destruct (Hrest [RunGenerator]) as (added & -> & Hni). by exists added.
    + exists []. split; [by destruct exit_on_error | by intros ?%elem_of_nil].
  - destruct (Hrest []) as (added & -> & Hni). done.
Qed.

Section keys.
Context {V : Type}.
Implicit Types (d : list (string * V)) (k : string) (v : V).

Lemma elem_of_keys_set d k k' v :
  k' ∈ Dict.keys (Dict.set d k v) → k' = k ∨ k' ∈ Dict.keys d.
Proof.
  induction d as [|[k0 v0] d IH]; simpl.
  - intros ->%list_elem_of_singleton. by left.
  - destruct (String.eqb_spec k0 k) as [->|Hne]; simpl.
    + intros [->|Hin]%elem_of_cons; [by left|]. right. by right.
    + intros [->|Hin]%elem_of_cons; [right; by left|].
      destruct (IH Hin) as [->|Hin']; [by left|]. right. by right.
Qed.

Lemma set_NoDup_keys d k v :
  NoDup (Dict.keys d) → NoDup (Dict.keys (Dict.set d k v)).
Proof.
  induction d as [|[k0 v0] d IH]; simpl.
  - intros _. apply NoDup_singleton.
  - intros [Hfresh Hd]%NoDup_cons.
    destruct (String.eqb_spec k0 k) as [->|Hne]; simpl.
    + by apply NoDup_cons.
    + apply NoDup_cons. split; [|by apply IH].
      intros [->|Hin]%elem_of_keys_set; done.
Qed.

Lemma get_elem_of d k v :
  NoDup (Dict.keys d) → (k, v) ∈ d → Dict.get d k = Some v.
Proof.
  induction d as [|[k0 v0] d IH]; simpl.
  - intros _ Hin. by apply elem_of_nil in Hin.
  - intros [Hfresh Hd]%NoDup_cons [Heq|Hin]%elem_of_cons.
    + simplify_eq. by rewrite String.eqb_refl.
    + destruct (String.eqb_spec k0 k) as [->|Hne]; [|by apply IH].
      destruct Hfresh. unfold Dict.keys.
      apply list_elem_of_In, in_map_iff. exists (k, v).
      split; [done | by apply list_elem_of_In].
Qed.
End keys.

(** The changeset is a dictionary: no key twice. *)
Lemma process_link_changes_NoDup interfaces cfg sys ch :
  process_link_changes interfaces cfg sys = Ok ch → NoDup (Dict.keys ch).
Proof.
  unfold process_link_changes.
  destruct (match_tables (physical_interfaces cfg)) as [m|]; simpl; [|done].
  apply (for_each_invariant _ (λ ch, NoDup (Dict.keys ch))).
  - intros ch0 i ch1 _ Hch0. rewrite link_change_planned.
    destruct (planned _ _ _ _ i) as [[v|]|]; simpl; intros [= <-];
      [by apply set_NoDup_keys | done].
  - apply NoDup_nil_2.
Qed.

Section emits.
Context (P : action → Prop).

Lemma emits_silent {A} (r : result A) : emits P (λ t, (r, t)).
Proof. intros t. exists r, []. by rewrite app_nil_r. Qed.

Lemma emits_bind {A B} (m : prog A) (f : A → prog B) :
  emits P m → (∀ x, emits P (f x)) → emits P (x <- m ;; f x).
Proof.
  intros Hm Hf t. simpl. destruct (Hm t) as (r1 & added1 & -> & Hin1).
  destruct r1 as [x|e]; [|by exists (Raise e), added1].
  destruct (Hf x (t ++ added1)) as (r2 & added2 & -> & Hin2).
  exists r2, (added1 ++ added2). rewrite app_assoc. split; [done|].
  by apply Forall_app.
Qed.

Lemma emits_lift_bind {A B} (r : result A) (f : A → prog B) :
  (∀ x, r = Ok x → emits P (f x)) → emits P (x <- lift r ;; f x).
Proof.
  intros Hf t. simpl. unfold lift. destruct r as [x|e].
  - by apply Hf.
  - exists (Raise e), []. by rewrite app_nil_r.
Qed.

Lemma emits_invoke h a : P a → emits P (invoke h a).
Proof.
  intros Ha t. unfold invoke. eexists _, [a]. split; [done|].
  by apply Forall_singleton.
Qed.

Lemma emits_ignore (m : prog unit) :
  emits P m → emits P (ignore_called_process_error m).
Proof.
  intros Hm t. unfold ignore_called_process_error.
  destruct (Hm t) as (r & added & -> & Hin).
  destruct r as [[]|[]]; by eexists _, added.
Qed.

Lemma emits_for {A} (l : list A) (body : A → prog unit) :
  (∀ a, a ∈ l → emits P (body a)) → emits P (for_ l body).
Proof.
  induction l as [|a l IH]; intros Hbody; simpl.
  - apply (emits_silent (Ok tt)).
  - apply emits_bind; [apply Hbody; by left|].
    intros _. apply IH. intros b Hb. apply Hbody. by right.
Qed.

Lemma emits_when b (m : prog unit) :
  (b = true → emits P m) → emits P (when b m).
Proof.
  destruct b; simpl; intros Hm; [by apply Hm | apply (emits_silent (Ok tt))].
Qed.
End emits.

Lemma command_apply_emits h run_generate sync exit_on_error :
  emits (pass_command h run_generate sync)
    (command_apply h run_generate sync exit_on_error).
Proof.
  unfold command_apply. apply emits_bind.
  { unfold generate. apply emits_bind.
    - destruct run_generate; [|apply (emits_silent _ (Ok false))].
      apply emits_bind; [|intros status; apply (emits_silent _ (Ok _))].
      intros t. eexists _, [RunGenerator]. split; [done|].
      apply Forall_singleton. by left.
    - intros [|]; [|apply (emits_silent _ (Ok tt))].
      destruct exit_on_error; apply (emits_silent _ (Raise _)). }
  intros _. unfold reconcile.
  fold (restart_nm h). fold (restart_networkd h).
  apply emits_bind; [|intros _].
  { apply emits_when. intros Hrestart. apply emits_invoke.
    right. left. done. }
  apply emits_bind; [|intros _].
  { unfold stop_network_manager.
    apply emits_when. intros Hrestart. apply emits_when. intros Hrunning.
    apply emits_bind; [|intros _].
    - apply emits_for. intros device Hdevice.
      apply emits_ignore, emits_invoke.
      do 2 right. left. by exists device.
    - apply emits_invoke. do 3 right. left. done. }
  apply emits_lift_bind. intros cfg Hcfg.
  apply emits_lift_bind. intros ch Hch.
  apply emits_bind; [|intros _].
  { apply emits_for. intros device Hdevice. apply emits_invoke.
    do 4 right. left. by exists device. }
  apply emits_bind; [|intros _].
  { apply emits_for. intros [iface settings] Hchange.
    pose proof (get_elem_of _ _ _ (process_link_changes_NoDup _ _ _ _ Hch)
                  Hchange) as Hget.
    destruct (process_link_changes_get _ _ _ _ Hch) as (m & _ & Hkeys).
    assert (∃ v, settings = entry v) as (v & ->).
    { destruct (decide (iface ∈ devices h)) as [Hin|Hni].
      - destruct (proj1 (Hkeys iface) Hin) as ([v|] & _ & Hentry);
          rewrite Hget in Hentry; simpl in Hentry; simplify_eq.
        by exists v.
      - rewrite (proj2 (Hkeys iface) Hni) in Hget. done. }
    unfold apply_rename. simpl.
    destruct (truthy v); [|apply (emits_silent _ (Ok tt))].
    destruct v as [|new_name| |]; try apply (emits_silent _ (Raise _)).
    apply emits_invoke. do 5 right. left.
    by exists iface, new_name, cfg, ch. }
  apply emits_bind; [|intros _].
  { apply emits_invoke. do 6 right. left. done. }
  apply emits_bind; [|intros _].
  { apply emits_when. intros Hrestart. apply emits_invoke.
    do 7 right. left. done. }
  apply emits_when. intros Hrestart. apply emits_invoke.
  do 8 right. done.
Qed.

(** X13. A pass runs no command but these, each only under the condition
    the code puts on it: the generator when generation is asked for; the
    stop of networkd (with the [netplan-wpa@*.service] wildcard) and its
    start (with the wpa units found) when its restart decision is true; an
    [nmcli device disconnect] of a listed device and the stop of
    NetworkManager when its restart decision is true and it is running; its
    start when the decision is true; a link-rule trigger for a listed
    device; an [ip link set] for an entry of the changeset that the planner
    returned; [udevadm settle]. The [sync] flag is passed on unchanged. *)
Theorem pass_runs_only_its_commands
  (h : host) (run_generate sync exit_on_error : bool) :
  Forall (pass_command h run_generate sync)
    (command_apply h run_generate sync exit_on_error []).2.
Proof.
  destruct (command_apply_emits h run_generate sync exit_on_error [])
    as (r & added & -> & Hadded).
  done.
Qed.

(** X14. A pass never renames an interface that is not in the device list,
    not declared physical, member of a bridge or bond, or not down, and
    never renames an interface to the name it has: every [ip link set] in
    the trace is for such an interface. *)
Theorem only_down_physical_interfaces_are_renamed
  (h : host) (run_generate sync exit_on_error : bool)
  (iface new_name : string) :
  ip_link_set_name iface new_name
    ∈ (command_apply h run_generate sync exit_on_error []).2 →
  iface ∈ devices h
  ∧ new_name ≠ iface
  ∧ (∃ text, operstate (sysfs h) iface = Some text ∧ strip text = "down")
  ∧ ∃ cfg,
      parse h = Ok cfg
      ∧ Dict.contains (physical_interfaces cfg) iface = true
      ∧ is_composite_member [bridges cfg; bonds cfg] iface = Ok false.
Proof.
  destruct (command_apply_emits h run_generate sync exit_on_error [])
    as (r & added & -> & Hadded).
  simpl. intros Hin. rewrite Forall_forall in Hadded.
  destruct (Hadded _ Hin)
    as [[? _]|[[? _]|[(? & ? & _)|[[? _]|[(? & ? & _)|[Hrename|[?|[[? _]|
        [? _]]]]]]]]]; try done.
  destruct Hrename as (i & n & cfg & ch & Heq & Hcfg & Hch & Hget).
  unfold ip_link_set_name in Heq. simplify_eq.
  destruct (process_link_changes_get _ _ _ _ Hch) as (m & _ & Hkeys).
  destruct (decide (i ∈ devices h)) as [Hdev|Hni];
    [|by rewrite (proj2 (Hkeys i) Hni) in Hget].
  destruct (proj1 (Hkeys i) Hdev) as (p & Hp & Hentry).
  rewrite Hget in Hentry. destruct p as [v|]; [|done].
  simpl in Hentry. unfold entry in Hentry. simplify_eq.
  destruct (planned_inv _ _ _ _ _ _ Hp)
    as (Hphys & Hmember & text & mac & Hstate & Hdown & _ & Htarget).
  destruct (target_inv _ _ _ _ _ Htarget) as [Hne _].
  split; [done|]. split; [congruence|]. split; [by exists text|].
  by exists cfg.
Qed.

Lemma only_down_physical_interfaces_are_renamed_witness :
  "eth1" ∈ devices (lab 0 true (λ _, None))
  ∧ ∃ text, operstate (sysfs (lab 0 true (λ _, None))) "eth1" = Some text
            ∧ strip text = "down".
Proof.
  destruct (only_down_physical_interfaces_are_renamed
              (lab 0 true (λ _, None)) true false true "eth1" "lan0")
    as (Hdev & _ & Hdown & _).
  - vm_compute. do 6 right. left.
  - done.
Defined.

Lemma flat_map_singleton {A B} (f : A → B) (l : list A) :
  flat_map (λ x, [f x]) l = map f l.
Proof. induction l as [|x l IH]; simpl; [done | by rewrite IH]. Qed.

Lemma invoke_ok h a t t' : invoke h a t = (Ok tt, t') → t' = t ++ [a].
Proof. unfold invoke. by intros [= _ <-]. Qed.

Lemma nmcli_ok h a t t' :
  ignore_called_process_error (invoke h a) t = (Ok tt, t') → t' = t ++ [a].
Proof.
  unfold ignore_called_process_error, invoke.
  destruct (raises h a) as [[]|]; by intros [= <-].
Qed.

Lemma for_ok {A} (l : list A) (body : A → prog unit) (g : A → list action)
  t t' :
  (∀ x t t', body x t = (Ok tt, t') → t' = t ++ g x) →
  for_ l body t = (Ok tt, t') → t' = t ++ flat_map g l.
Proof.
  intros Hbody. revert t. induction l as [|x l IH]; intros t; simpl.
  - intros [= <-]. by rewrite app_nil_r.
  - destruct (body x t) as [[[]|e] t1] eqn:Hx; [|done].
    apply Hbody in Hx as ->. intros ->%IH. by rewrite app_assoc.
Qed.

Lemma apply_rename_ok h change t t' :
  apply_rename h change t = (Ok tt, t') → t' = t ++ rename_command change.
Proof.
  destruct change as [iface settings]. unfold apply_rename, rename_command.
  simpl. unfold lift.
  destruct (py_get settings "name" VNone) as [name|]; [|done].
  destruct name as [|new_name| |]; simpl.
  - intros [= <-]. by rewrite app_nil_r.
  - destruct (negb (String.eqb new_name "")).
    + apply invoke_ok.
    + intros [= <-]. by rewrite app_nil_r.
  - destruct (negb _); [done|]. intros [= <-]. by rewrite app_nil_r.
  - destruct (negb _); [done|]. intros [= <-]. by rewrite app_nil_r.
Qed.

Lemma when_invoke_ok h b a t t' :
  when b (invoke h a) t = (Ok tt, t') → t' = t ++ (if b then [a] else []).
Proof.
  destruct b; simpl; [apply invoke_ok|]. intros [= <-]. by rewrite app_nil_r.
Qed.

Lemma stop_network_manager_ok h sync restart t t' :
  stop_network_manager h sync restart t = (Ok tt, t') →
  t' = t ++ (if restart && nm_running h
             then map nmcli_disconnect (devices h)
                  ++ [SystemctlNetworkManager "stop" sync]
             else []).
Proof.
  unfold stop_network_manager.
  destruct restart; simpl; [|intros [= <-]; by rewrite app_nil_r].
  destruct (nm_running h); simpl; [|intros [= <-]; by rewrite app_nil_r].
  destruct (for_ _ _ t) as [[[]|e] t1] eqn:Hloop; [|done].
  apply (for_ok _ _ (λ device, [nmcli_disconnect device])) in Hloop as ->;
    [|intros device t0 t0'; apply nmcli_ok].
  intros ->%invoke_ok. by rewrite flat_map_singleton, app_assoc.
Qed.

(** X15. A pass that returns has run exactly these commands, in this
    order: the generator if asked (and it exited zero), the stop of
    networkd if its restart decision is true, the disconnect of every
    listed device and the stop of NetworkManager if its decision is true
    and it is running, a link-rule trigger for every listed device, one
    [ip link set] for each entry of the changeset in its order, the settle,
    the start of networkd with the wpa units and the start of
    NetworkManager under their decisions. *)
Theorem returned_pass_ran_everything
  (h : host) (run_generate sync exit_on_error : bool) (t : list action) :
  command_apply h run_generate sync exit_on_error [] = (Ok tt, t) →
  ∃ cfg ch,
    parse h = Ok cfg
    ∧ process_link_changes (devices h) cfg (sysfs h) = Ok ch
    ∧ (run_generate = true → generator_status h = 0%Z)
    ∧ t = expected_trace h run_generate sync ch.
Proof.
  unfold command_apply. intros Hrun.
  apply bind_ok in Hrun as ([] & t0 & Hgen & Hrun).
  assert (t0 = (if run_generate then [RunGenerator] else [])
          ∧ (run_generate = true → generator_status h = 0%Z)) as [-> Hstatus].
  { unfold generate, call_generator in Hgen. destruct run_generate; simpl in Hgen.
    - destruct (Z.eqb_spec (generator_status h) 0); simpl in Hgen.
      + by simplify_eq.
      + by destruct exit_on_error.
    - by simplify_eq. }
  unfold reconcile in Hrun.
  fold (restart_nm h) in Hrun. fold (restart_networkd h) in Hrun.
  apply bind_ok in Hrun as ([] & t1 & ->%when_invoke_ok & Hrun).
  apply bind_ok in Hrun as ([] & t2 & ->%stop_network_manager_ok & Hrun).
  apply bind_ok in Hrun as (cfg & t3 & Hcfg & Hrun).
  apply bind_ok in Hrun as (ch & t4 & Hch & Hrun).
  unfold lift in Hcfg, Hch. simplify_eq.
  apply bind_ok in Hrun as ([] & t5 & Htriggers & Hrun).
  apply (for_ok _ _ (λ device, [net_setup_link device])) in Htriggers as ->;
    [|intros device t0 t0'; apply invoke_ok].
  apply bind_ok in Hrun as ([] & t6 & Hrenames & Hrun).
  apply (for_ok _ _ rename_command) in Hrenames as ->;
    [|intros change t0 t0'; apply apply_rename_ok].
  apply bind_ok in Hrun as ([] & t7 & ->%invoke_ok & Hrun).
  apply bind_ok in Hrun as ([] & t8 & ->%when_invoke_ok & Hrun).
  apply when_invoke_ok in Hrun as ->.
  exists cfg, ch. split; [done|]. split; [done|]. split; [done|].
  unfold expected_trace. rewrite flat_map_singleton.
  by rewrite <-!app_assoc.
Qed.

Lemma returned_pass_ran_everything_witness :
  ∃ ch,
    process_link_changes ["eth1"; "eth2"] two_rules two_nics = Ok ch
    ∧ [RunGenerator; nmcli_disconnect "eth1"; nmcli_disconnect "eth2";
       SystemctlNetworkManager "stop" false;
       net_setup_link "eth1"; net_setup_link "eth2";
       ip_link_set_name "eth1" "lan0"; ip_link_set_name "eth2" "wan0";
       udevadm_settle; SystemctlNetworkManager "start" false]
      = expected_trace (lab 0 true nmcli_fails) true false ch.
Proof.
  destruct (returned_pass_ran_everything (lab 0 true nmcli_fails)
              true false true
              [RunGenerator; nmcli_disconnect "eth1"; nmcli_disconnect "eth2";
               SystemctlNetworkManager "stop" false;
               net_setup_link "eth1"; net_setup_link "eth2";
               ip_link_set_name "eth1" "lan0"; ip_link_set_name "eth2" "wan0";
               udevadm_settle; SystemctlNetworkManager "start" false])
    as (cfg & ch & Hcfg & Hch & _ & Htrace); [by vm_compute|].
  simpl in Hcfg. simplify_eq. by exists ch.
Defined.

Section yields.
Context (h : host).

Lemma yields_ret {A} (x : A) : yields (ret x) x [].
Proof. intros t. simpl. by rewrite app_nil_r. Qed.

Lemma yields_bind {A B} (m : prog A) (f : A → prog B) x y l1 l2 :
  yields m x l1 → yields (f x) y l2 → yields (a <- m ;; f a) y (l1 ++ l2).
Proof. intros Hm Hf t. simpl. by rewrite Hm, Hf, app_assoc. Qed.

Lemma yields_lift {A} (r : result A) x : r = Ok x → yields (lift r) x [].
Proof. intros -> t. unfold lift. by rewrite app_nil_r. Qed.

Lemma yields_invoke a : raises h a = None → yields (invoke h a) tt [a].
Proof. intros Ha t. unfold invoke. by rewrite Ha. Qed.

Lemma yields_nmcli args :
  fatal h (Nmcli args) = false →
  yields (ignore_called_process_error (invoke h (Nmcli args))) tt [Nmcli args].
Proof.
  intros Hquiet t. unfold ignore_called_process_error, invoke.
  unfold fatal in Hquiet. by destruct (raises h (Nmcli args)) as [[]|].
Qed.

Lemma yields_for {A} (l : list A) (body : A → prog unit)
  (g : A → list action) :
  (∀ x, x ∈ l → yields (body x) tt (g x)) →
  yields (for_ l body) tt (flat_map g l).
Proof.
  induction l as [|x l IH]; intros Hbody; simpl.
  - apply yields_ret.
  - apply (yields_bind _ _ tt); [apply Hbody; by left|].
    apply IH. intros y Hy. apply Hbody. by right.
Qed.

Lemma yields_when_invoke b a :
  (b = true → raises h a = None) →
  yields (when b (invoke h a)) tt (if b then [a] else []).
Proof.
  destruct b; simpl; intros Ha; [|apply yields_ret].
  apply yields_invoke. by apply Ha.
Qed.

Lemma yields_apply_rename change :
  applicable change = true →
  Forall (λ a, fatal h a = false) (rename_command change) →
  yields (apply_rename h change) tt (rename_command change).
Proof.
  destruct change as [iface settings].
  unfold applicable, apply_rename, rename_command. simpl.
  destruct (py_get settings "name" VNone) as [name|]; [|done]. simpl.
  intros Happlicable Hquiet t. unfold lift.
  destruct name as [|new_name| |]; simpl in *; try done.
  - by rewrite app_nil_r.
  - destruct (negb (String.eqb new_name "")); [|by rewrite app_nil_r].
    rewrite Forall_singleton in Hquiet.
    unfold ip_link_set_name, fatal in Hquiet.
    apply yields_invoke. unfold ip_link_set_name.
    by destruct (raises h (CheckCall _)).
  - destruct (Nat.eqb (length l) 0); simpl in *; [by rewrite app_nil_r | done].
  - destruct (Nat.eqb (length d) 0); simpl in *; [by rewrite app_nil_r | done].
Qed.
End yields.

(** X16. A pass returns, after exactly the commands of a pass in which
    nothing fails, when the generator is skipped or exits zero, the
    configuration parses, the planner returns a changeset whose names are
    strings, and none of these commands ends with an exception, a
    [CalledProcessError] of [nmcli device disconnect] apart: the failure to
    disconnect a device does not stop the pass. *)
Theorem pass_returns_when_nothing_fails
  (h : host) (run_generate sync exit_on_error : bool)
  (cfg : config_manager) (ch : list (string * value)) :
  (run_generate = true → generator_status h = 0%Z) →
  parse h = Ok cfg →
  process_link_changes (devices h) cfg (sysfs h) = Ok ch →
  forallb applicable ch = true →
  Forall (λ a, fatal h a = false) (expected_trace h run_generate sync ch) →
  command_apply h run_generate sync exit_on_error []
  = (Ok tt, expected_trace h run_generate sync ch).
Proof.
  intros Hstatus Hcfg Hch Happlicable Hquiet.
  unfold expected_trace in Hquiet.
  apply Forall_app in Hquiet as [_ Hquiet].
  apply Forall_app in Hquiet as [Hstop_networkd Hquiet].
  apply Forall_app in Hquiet as [Hstop_nm Hquiet].
  apply Forall_app in Hquiet as [Htriggers Hquiet].
  apply Forall_app in Hquiet as [Hrenames Hquiet].
  apply Forall_app in Hquiet as [Hsettle Hquiet].
  apply Forall_app in Hquiet as [Hstart_networkd Hstart_nm].
  assert (∀ a, fatal h a = false →
            match a with
            | RunGenerator | Nmcli _ => True
            | _ => raises h a = None
            end) as Hraises.
  { intros a. unfold fatal. destruct a; try done; by destruct (raises h _). }
  enough (yields (command_apply h run_generate sync exit_on_error) tt
            (expected_trace h run_generate sync ch)) as Hyields
    by apply (Hyields []).
  unfold command_apply, expected_trace. apply (yields_bind _ _ tt).
  { unfold generate, call_generator. intros t. simpl.
    destruct run_generate; simpl; [|by rewrite app_nil_r].
    by rewrite (Hstatus eq_refl). }
  unfold reconcile. fold (restart_nm h). fold (restart_networkd h).
  apply (yields_bind _ _ tt).
  { apply yields_when_invoke. intros Hrestart. rewrite Hrestart in *.
    by apply (Hraises _ (proj1 (Forall_singleton _ _) Hstop_networkd)). }
  apply (yields_bind _ _ tt).
  { unfold stop_network_manager.
    destruct (restart_nm h); simpl; [|apply yields_ret].
    destruct (nm_running h); simpl; [|apply yields_ret].
    apply Forall_app in Hstop_nm as [Hdisconnects Hstop].
    apply (yields_bind _ _ tt).
    - rewrite <-flat_map_singleton. apply yields_for. intros device Hdevice.
      apply (yields_nmcli h ["device"; "disconnect"; device]).
      rewrite Forall_forall in Hdisconnects.
      apply (Hdisconnects (nmcli_disconnect device)).
      apply list_elem_of_In, in_map. by apply list_elem_of_In.
    - apply yields_invoke.
      by apply (Hraises _ (proj1 (Forall_singleton _ _) Hstop)). }
  apply (yields_bind _ _ cfg _ []); [by apply yields_lift|].
  apply (yields_bind _ _ ch _ []); [by apply yields_lift|].
  apply (yields_bind _ _ tt).
  { rewrite <-flat_map_singleton. apply yields_for. intros device Hdevice.
    apply yields_invoke. rewrite Forall_forall in Htriggers.
    apply (Hraises (net_setup_link device)), Htriggers.
    apply list_elem_of_In, in_map. by apply list_elem_of_In. }
  apply (yields_bind _ _ tt).
  { apply yields_for. intros change Hchange. apply yields_apply_rename.
    - rewrite forallb_forall in Happlicable.
      by apply Happlicable, list_elem_of_In.
    - rewrite Forall_forall in Hrenames |- *. intros a Ha. apply Hrenames.
      apply list_elem_of_In, in_flat_map. exists change.
      split; by apply list_elem_of_In. }
  apply (yields_bind _ _ tt).
  { apply yields_invoke.
    by apply (Hraises _ (proj1 (Forall_singleton _ _) Hsettle)). }
  apply (yields_bind _ _ tt).
  { apply yields_when_invoke. intros Hrestart. rewrite Hrestart in *.
    by apply (Hraises _ (proj1 (Forall_singleton _ _) Hstart_networkd)). }
  apply yields_when_invoke. intros Hrestart. rewrite Hrestart in *.
  by apply (Hraises _ (proj1 (Forall_singleton _ _) Hstart_nm)).
Qed.

Lemma pass_returns_when_nothing_fails_witness :
  command_apply (lab 0 true nmcli_fails) true false true []
  = (Ok tt,
     [RunGenerator; nmcli_disconnect "eth1"; nmcli_disconnect "eth2";
      SystemctlNetworkManager "stop" false;
      net_setup_link "eth1"; net_setup_link "eth2";
      ip_link_set_name "eth1" "lan0"; ip_link_set_name "eth2" "wan0";
      udevadm_settle; SystemctlNetworkManager "start" false]).
Proof.
  apply (pass_returns_when_nothing_fails (lab 0 true nmcli_fails)
           true false true two_rules
           [("eth1", VDict [("name", VStr "lan0")]);
            ("eth2", VDict [("name", VStr "wan0")])]).
  - done.
  - reflexivity.
  - by vm_compute.
  - reflexivity.
  - vm_compute. repeat constructor.
Defined.
